(** * jams-data: the Isophonics and tagtraum parsers

    A shallow embedding of [parsers/msd_tagtraum_cd_parser.py] and
    [parsers/isophonics_parser.py], and the properties of the extraction,
    normalization and merging pipeline proved or refuted on it.

    Conventions.
    - Python 2 byte strings are [string]; a text file is the list of the
      lines its iterator yields (each with its line terminator).
    - A [dict] is a [gmap], a [set] a [gset].  The iteration order of a
      Python 2 dict is not specified: every loop over a dict takes the order
      as a parameter [iteritems], constrained to enumerate the dict.
    - An uncaught exception ends the run: fallible code returns [result].
    - The calls into the [jams] library that touch the disk (the reader of
      a lab file, the creation of directories, the validating save) are
      parameters: a property of a run holds for whatever they return.
    - [logging] calls append to an explicit log.
    - Python floats are binary64: [PrimFloat].  A pandas [Timedelta] is its
      integer number of nanoseconds. *)

From Stdlib Require Import ZArith QArith Qabs Ascii String Lia.
From Corelib Require Import PrimFloat.
From Stdlib Require Import Floats.
From stdpp Require Import gmap strings list fin_maps pretty.

Open Scope string_scope.
Open Scope list_scope.

(* ===================================================================== *)
(** * Python built-ins used by the parsers *)
(* ===================================================================== *)

Module Py.

(** Exceptions the two parsers can raise, and those of the directory
    creation and of the validating save of the library. *)
Inductive exn :=
| KeyError (key : string)
| IndexError
| AttributeError
| TypeError
| LabelsNotInAxis (labels : list nat)
| SchemaError
| ParameterError
| OSError.

Inductive result (A : Type) :=
| Ok (a : A)
| Raise (e : exn).
Arguments Ok {A} a.
Arguments Raise {A} e.

Definition bind {A B} (r : result A) (k : A -> result B) : result B :=
  match r with
  | Ok a => k a
  | Raise e => Raise e
  end.

(** [logging.info] and [logging.warning]. *)
Inductive log_record :=
| Info (msg : string)
| Warning (msg : string).

Definition TAB : string := String (ascii_of_nat 9) "".
Definition LF : string := String (ascii_of_nat 10) "".

(** The characters [str.strip()] removes: space, \t, \n, \v, \f, \r. *)
Definition is_space (c : ascii) : bool :=
  let n := nat_of_ascii c in
  (n =? 32)%nat || ((9 <=? n)%nat && (n <=? 13)%nat).

Definition in_chars (chars : string) (c : ascii) : bool :=
  bool_decide (c ∈ list_ascii_of_string chars).

Fixpoint lstrip_by (p : ascii -> bool) (s : string) : string :=
  match s with
  | String c s' => if p c then lstrip_by p s' else s
  | EmptyString => EmptyString
  end.

Fixpoint rstrip_by (p : ascii -> bool) (s : string) : string :=
  match s with
  | String c s' =>
      match rstrip_by p s' with
      | EmptyString => if p c then EmptyString else String c EmptyString
      | r => String c r
      end
  | EmptyString => EmptyString
  end.

(** [s.strip()] *)
Definition strip (s : string) : string :=
  rstrip_by is_space (lstrip_by is_space s).

(** [s.strip(chars)] *)
Definition strip_chars (chars s : string) : string :=
  rstrip_by (in_chars chars) (lstrip_by (in_chars chars) s).

(** [s.startswith(p)] *)
Fixpoint startswith (p s : string) : bool :=
  match p, s with
  | EmptyString, _ => true
  | String a p', String b s' => if Ascii.eqb a b then startswith p' s' else false
  | String _ _, EmptyString => false
  end.

(** [p in s] for strings. *)
Fixpoint contains (p s : string) : bool :=
  startswith p s ||
  match s with
  | String _ s' => contains p s'
  | EmptyString => false
  end.

(** [s.split(sep)] for a non-empty separator: occurrences are found left
    to right and do not overlap.  [skip] counts the characters of a
    separator just matched that are still to be passed over. *)
Fixpoint split_from (sep : string) (skip : nat) (s : string) : list string :=
  match s with
  | EmptyString => [EmptyString]
  | String c s' =>
      match skip with
      | S k => split_from sep k s'
      | O =>
          if startswith sep s
          then EmptyString :: split_from sep (String.length sep - 1) s'
          else match split_from sep 0 s' with
               | h :: t => String c h :: t
               | [] => [String c EmptyString]
               end
      end
  end.

Definition split (sep s : string) : list string := split_from sep 0 s.

(** [sep.join(l)] *)
Fixpoint join (sep : string) (l : list string) : string :=
  match l with
  | [] => EmptyString
  | [x] => x
  | x :: l' => x +:+ sep +:+ join sep l'
  end.

(** [s.replace(old, new)]; with an empty [old], [new] is inserted before
    every character and at the end. *)
Definition replace (old new s : string) : string :=
  match old with
  | EmptyString =>
      new +:+ String.concat EmptyString
               (map (fun c => String c new) (list_ascii_of_string s))
  | _ => join new (split old s)
  end.

Definition lower_ascii (c : ascii) : ascii :=
  let n := nat_of_ascii c in
  if (65 <=? n)%nat && (n <=? 90)%nat then ascii_of_nat (n + 32) else c.

(** [s.lower()] (C locale) *)
Fixpoint lower (s : string) : string :=
  match s with
  | String c s' => String (lower_ascii c) (lower s')
  | EmptyString => EmptyString
  end.

(** [s[i:j]] for [0 <= i <= j] *)
Definition slice (i j : nat) (s : string) : string := substring i (j - i) s.

Fixpoint endswith_char (c : ascii) (s : string) : bool :=
  match s with
  | EmptyString => false
  | String a EmptyString => Ascii.eqb a c
  | String _ s' => endswith_char c s'
  end.

(** [os.path.join(a, *p)] of [posixpath]. *)
Definition path_join1 (path b : string) : string :=
  if startswith "/" b then b
  else if String.eqb path "" || endswith_char "/" path then path +:+ b
  else path +:+ "/" +:+ b.

Definition path_join (a : string) (p : list string) : string :=
  foldl path_join1 a p.

(** [p[:i], p[i:]] for [i = p.rfind("/") + 1] *)
Fixpoint rsplit_slash (p : string) : string * string :=
  match p with
  | EmptyString => (EmptyString, EmptyString)
  | String c p' =>
      if contains "/" p'
      then let r := rsplit_slash p' in (String c r.1, r.2)
      else if Ascii.eqb c "/" then ("/", p') else (EmptyString, p)
  end.

(** [os.path.split(p)] of [posixpath]: the trailing slashes of the head
    are removed unless the head is made of slashes only. *)
Definition path_split (p : string) : string * string :=
  let r := rsplit_slash p in
  let stripped := rstrip_by (Ascii.eqb "/") r.1 in
  (if String.eqb stripped "" then r.1 else stripped, r.2).

End Py.

Import Py.

(** [result] is an error monad: stdpp's [x ← r; k] sequences fallible
    steps, the first [Raise] ending the computation. *)
#[global] Instance result_ret : MRet result := fun _ a => Ok a.
#[global] Instance result_bind : MBind result := fun _ _ k r => Py.bind r k.

(* ===================================================================== *)
(** * The annotation container (the external [jams] library)

    Only the data the parsers build is modelled.  An annotation's [data] is
    a pandas frame: rows carrying an index label.  [add_observation] writes
    the row labelled [len(frame)], [iloc] addresses rows by position,
    [loc] and [drop] by label. *)
(* ===================================================================== *)

Module Jams.

(** A cell of the [value] column. *)
Inductive cell :=
| VStr (s : string)
| VNum (x : float)
| VNaN.

Record observation := Observation {
  time : Z;            (* Timedelta, nanoseconds *)
  duration : Z;        (* Timedelta, nanoseconds *)
  value : cell;
  confidence : float
}.

Abbreviation frame := (list (nat * observation)).

Definition add_observation (o : observation) (f : frame) : frame :=
  f ++ [(length f, o)].

(** The frame [import_lab] builds from the events of a lab file. *)
Definition frame_of (evs : list observation) : frame :=
  foldl (fun f o => add_observation o f) [] evs.

Definition labels (f : frame) : list nat := f.*1.
Definition rows (f : frame) : list observation := f.*2.

(** [frame.iloc[-1]] *)
Definition iloc_last (f : frame) : result observation :=
  match last f with
  | Some r => Ok r.2
  | None => Raise IndexError
  end.

(** [frame.loc[i, "value"] = v] for a label [i] of the frame.  (For an
    absent label pandas would enlarge the frame; the parsers only write
    at the positions of a frame whose labels are its positions, see
    [frame_of_labels].) *)
Definition loc_set_value (i : nat) (v : cell) (f : frame) : frame :=
  map (fun r : nat * observation =>
         if (r.1 =? i)%nat
         then (r.1, Observation (time r.2) (duration r.2) v (confidence r.2))
         else r) f.

(** [frame.drop(idxs, inplace=True)]: removes the rows labelled in [idxs],
    and raises when a label of [idxs] is not in the index. *)
Definition drop (idxs : list nat) (f : frame) : result frame :=
  match filter (fun i => i ∉ labels f) idxs with
  | [] => Ok (filter (fun r : nat * observation => r.1 ∉ idxs) f)
  | missing => Raise (LabelsNotInAxis missing)
  end.

(** [Timedelta.total_seconds()], as the exact rational number of seconds
    (the rounding to binary64 is not modelled; it keeps the sign). *)
Definition total_seconds (ns : Z) : Q := Qmake ns 1000000000.

Record AnnotationMetadata := {
  curator_name : string;
  curator_email : string;
  data_source : string;
  version : float;
  corpus : string;
  annotator : option string;
  validation : string
}.

Record Annotation := {
  namespace : string;
  data : frame;
  annotation_metadata : option AnnotationMetadata
}.

Record FileMetadata := {
  artist : string;
  title : string;
  file_duration : option Q;       (* seconds; [None] is Python's None *)
  identifiers : option string     (* Sandbox(msd_id=...) *)
}.

Record JAMS := {
  file_metadata : FileMetadata;
  annotations : list Annotation
}.

(** [jams.JAMS()] *)
Definition new_JAMS : JAMS :=
  {| file_metadata := {| artist := ""; title := ""; file_duration := None;
                         identifiers := None |};
     annotations := [] |}.

(** [jams.Annotation(namespace=ns)] *)
Definition new_Annotation (ns : string) : Annotation :=
  {| namespace := ns; data := []; annotation_metadata := None |}.

Definition with_data (f : frame) (a : Annotation) : Annotation :=
  {| namespace := namespace a; data := f;
     annotation_metadata := annotation_metadata a |}.

Definition with_metadata (m : AnnotationMetadata) (a : Annotation) : Annotation :=
  {| namespace := namespace a; data := data a;
     annotation_metadata := Some m |}.

Definition with_annotations (l : list Annotation) (j : JAMS) : JAMS :=
  {| file_metadata := file_metadata j; annotations := l |}.

Definition with_duration (d : option Q) (j : JAMS) : JAMS :=
  {| file_metadata :=
       {| artist := artist (file_metadata j); title := title (file_metadata j);
          file_duration := d; identifiers := identifiers (file_metadata j) |};
     annotations := annotations j |}.

(** [l[-1] = f(l[-1])]: an update of the last element, which raises on an
    empty list. *)
Definition on_last {A} (f : A -> A) (l : list A) : result (list A) :=
  match l with
  | [] => Raise IndexError
  | _ => Ok (alter f (length l - 1)%nat l)
  end.

(** The two calls that write a file, [jams.util.smkdirs] on the directory
    of the file and then [jam.save], which validates the record against
    the schema before it serializes it.  Both belong to the library, and
    both can raise: they are parameters [smkdirs] and [save] of the
    parsers. *)
Definition write (smkdirs : string -> result unit)
    (save : string -> JAMS -> result unit) (out_file : string) (jam : JAMS)
  : result unit :=
  smkdirs (path_split out_file).1;; save out_file jam.

(** What a run leaves behind: the files written, in order, the log, and
    the exception that ended it, if any. *)
Record run := {
  saved : list (string * JAMS);
  logged : list log_record;
  raised : option exn
}.

End Jams.

Import Jams.

(* ===================================================================== *)
(** * parsers/msd_tagtraum_cd_parser.py *)
(* ===================================================================== *)

Module Tagtraum.

Definition DQUOTE : string := String (ascii_of_nat 34) "".

Definition fill_file_metadata (jam : JAMS) (artist title track_id : string) : JAMS :=
  {| file_metadata := {| artist := artist; title := title;
                         file_duration := Some 0%Q;
                         identifiers := Some track_id |};
     annotations := annotations jam |}.

(** The three values [load_tagtraum_dataset] returns. *)
Record dataset := {
  genres : gset string;
  has_minority_genres : bool;
  tagtraum_values : gmap string (list string)
}.

Definition empty_dataset : dataset :=
  {| genres := ∅; has_minority_genres := false; tagtraum_values := ∅ |}.

(** One iteration of [for line in open(tagtraum_dataset)]. *)
Definition load_line (st : dataset * list log_record) (line : string)
  : dataset * list log_record :=
  if startswith "#" line then st
  else
    match split TAB (strip line) with
    | [track_id; genre] =>
        ({| genres := genres st.1 ∪ {[genre]};
            has_minority_genres := has_minority_genres st.1;
            tagtraum_values := <[track_id := [genre]]> (tagtraum_values st.1) |},
         st.2)
    | [track_id; majority_genre; token2] =>
        let minority_genre := strip token2 in
        ({| genres := genres st.1 ∪ {[majority_genre]} ∪ {[minority_genre]};
            has_minority_genres := true;
            tagtraum_values :=
              <[track_id := [majority_genre; minority_genre]]>
                (tagtraum_values st.1) |},
         st.2)
    | _ =>
        (st.1,
         st.2 ++ [Warning ("Failed to parse tagtraum dataset line: " +:+ line)])
    end.

Definition load_lines (st : dataset * list log_record) (lines : list string)
  : dataset * list log_record :=
  foldl load_line st lines.

Definition load_tagtraum_dataset (lines : list string)
  : dataset * list log_record :=
  let st := load_lines (empty_dataset, [Info "Loading tagtraum dataset..."]) lines in
  (st.1,
   st.2 ++ [Info ("Loaded " +:+ pretty (size (tagtraum_values st.1)) +:+ " items.")]).

(** One iteration of [for line in open(msd_unique_tracks)]. *)
Definition load_msd_line (tagtraum_values : gmap string (list string))
    (st : gmap string (string * string) * list log_record) (line : string)
  : gmap string (string * string) * list log_record :=
  match split "<SEP>" (strip line) with
  | [track_id; _; artist; title] =>
      if bool_decide (is_Some (tagtraum_values !! track_id))
      then (<[track_id := (artist, title)]> st.1, st.2)
      else st
  | _ =>
      (st.1, st.2 ++ [Warning ("Failed to parse unique tracks line: " +:+ line)])
  end.

Definition load_msd_metadata (lines : list string)
    (tagtraum_values : gmap string (list string))
  : gmap string (string * string) * list log_record :=
  foldl (load_msd_line tagtraum_values)
        (∅, [Info "Matching with metadata from MSD unique tracks..."]) lines.

(** The dataset guess of [process] and what is derived from it. *)
Definition is_cd1 (d : dataset) : bool := (size (genres d) =? 13)%nat.
Definition is_cd2 (d : dataset) : bool := negb (is_cd1 d) && has_minority_genres d.

Definition namespace (d : dataset) : string :=
  if is_cd1 d then "tag_msd_tagtraum_cd1" else "tag_msd_tagtraum_cd2".

Definition majority_confidence (d : dataset) : float :=
  if is_cd1 d then (2.0 / 3.0)%float else (1.0 / 2.0)%float.
Definition minority_confidence (d : dataset) : float :=
  (1.0 - majority_confidence d)%float.

Definition corpus (d : dataset) : string :=
  if is_cd1 d then "msd tagtraum cd1"
  else if is_cd2 d then "msd tagtraum cd2" else "msd tagtraum cd2c".

Definition annotation_metadata (d : dataset) : AnnotationMetadata :=
  {| curator_name := "Hendrik Schreiber";
     curator_email := "hs@tagtraum.com";
     data_source := if is_cd1 d then "Top-MAGD, beaTunes, Last.fm"
                    else "beaTunes, Last.fm";
     version := 1.0%float;
     Jams.corpus := corpus d;
     annotator := Some (if is_cd1 d
                        then "All Music Guide, Last.fm users, beaTunes users"
                        else "Last.fm users, beaTunes users");
     validation := "Multiple data sources. Majority voting." |}.

(** [annotation.data.add_observation(value=v, confidence=c, time=0, duration=0)] *)
Definition add_vote (v : string) (c : float) (a : Annotation) : Annotation :=
  with_data (add_observation (Observation 0 0 (VStr v) c) (data a)) a.

(** The body of [for track_id, genres in tagtraum_values.iteritems()] up
    to the write: the record it builds and the path of its file, or the
    exception it raises. *)
Definition convert_track (d : dataset)
    (unique_tracks_values : gmap string (string * string)) (out_dir : string)
    (track_id : string) (genres : list string) : result (string * JAMS) :=
  at_ ← match unique_tracks_values !! track_id with
        | Some p => Ok p
        | None => Raise (KeyError track_id)
        end;
  let jam := fill_file_metadata new_JAMS at_.1 at_.2 track_id in
  let annotation := new_Annotation (namespace d) in
  let confidence :=
    if (length genres =? 1)%nat then 1.0%float else majority_confidence d in
  g0 ← match genres !! 0%nat with Some g => Ok g | None => Raise IndexError end;
  let annotation := add_vote g0 confidence annotation in
  annotation ←
    (if (length genres =? 2)%nat
     then g1 ← match genres !! 1%nat with Some g => Ok g | None => Raise IndexError end;
          Ok (add_vote g1 (minority_confidence d) annotation)
     else Ok annotation);
  let jam := with_annotations (annotations jam ++ [annotation]) jam in
  annots ← on_last (with_metadata (annotation_metadata d)) (annotations jam);
  let jam := with_annotations annots jam in
  let out_file :=
    path_join out_dir [slice 2 3 track_id; slice 3 4 track_id;
                       slice 4 5 track_id; track_id +:+ ".jams"] in
  Ok (out_file, jam).

Section Process.

(** [jams.util.smkdirs(dpath)] *)
Variable smkdirs : string -> result unit.

(** [jam.save(out_file)] *)
Variable save : string -> JAMS -> result unit.

(** The order in which [iteritems()] enumerates a dict. *)
Variable iteritems :
  gmap string (list string) -> list (string * list string).

(** The whole body of the loop: the record is built, the directory of
    its file is created and the record is saved. *)
Definition save_track (d : dataset)
    (unique_tracks_values : gmap string (string * string)) (out_dir : string)
    (track_id : string) (genres : list string) : result (string * JAMS) :=
  written ← convert_track d unique_tracks_values out_dir track_id genres;
  smkdirs (path_split written.1).1;;
  save written.1 written.2;;
  Ok written.

(** The loop over the tracks: files written until an exception ends it. *)
Fixpoint convert_tracks (d : dataset)
    (unique_tracks_values : gmap string (string * string)) (out_dir : string)
    (items : list (string * list string))
  : list (string * JAMS) * option exn :=
  match items with
  | [] => ([], None)
  | (track_id, genres) :: rest =>
      match save_track d unique_tracks_values out_dir track_id genres with
      | Ok written =>
          let r := convert_tracks d unique_tracks_values out_dir rest in
          (written :: r.1, r.2)
      | Raise e => ([], Some e)
      end
  end.

Definition process (tagtraum_dataset msd_unique_tracks : list string)
    (out_dir : string) : run :=
  let loaded := load_tagtraum_dataset tagtraum_dataset in
  let d := loaded.1 in
  let unique := load_msd_metadata msd_unique_tracks (tagtraum_values d) in
  let r := convert_tracks d unique.1 out_dir (iteritems (tagtraum_values d)) in
  {| saved := r.1;
     logged := loaded.2 ++ unique.2
               ++ [Info ("Detected namespace " +:+ DQUOTE +:+ namespace d
                         +:+ DQUOTE +:+ ".");
                   Info "Saving and validating JAMS..."];
     raised := r.2 |}.

End Process.

End Tagtraum.

(* ===================================================================== *)
(** * parsers/isophonics_parser.py *)
(* ===================================================================== *)

Module Isophonics.

(** Map of JAMS attributes to Isophonics directories. *)
Definition ISO_ATTRS : gmap string string :=
  list_to_map [("beat", "beat"); ("chord", "chordlab");
               ("key", "keylab"); ("segment", "seglab")].

(** Namespace dictionary *)
Definition NS_DICT : gmap string string :=
  list_to_map [("beat", "beat"); ("chord", "chord_harte");
               ("key", "key_mode"); ("segment", "segment_isophonics")].

(** Map chords that don't make much sense *)
Definition CHORDS_DICT : gmap string string :=
  list_to_map [("E:4", "E:sus4"); ("Db:6", "Db:maj6"); ("F#min7", "F#:min7");
               ("B:7sus", "B:maj7"); ("Db:6/2", "Db:maj6/2");
               ("Ab:6", "Ab:maj6"); ("F:6", "F:maj6"); ("D:6", "D:maj6");
               ("G:6", "G:maj6"); ("A:6", "A:maj6"); ("E:sus", "E");
               ("E:7sus", "E:maj7")].

(** Map keys that don't make much sense *)
Definition KEYS_DICT : gmap string string :=
  list_to_map [("C#:modal", "C#")].

Definition fill_file_metadata (jam : JAMS) (artist title : string) : JAMS :=
  {| file_metadata := {| artist := artist; title := title;
                         file_duration := None;
                         identifiers := identifiers (file_metadata jam) |};
     annotations := annotations jam |}.

(** [enumerate(l)] *)
Definition enumerate {A} (l : list A) : list (nat * A) := imap pair l.

Definition get_duration_from_annot (annot : Annotation) : result Q :=
  r ← iloc_last (data annot);
  Ok (total_seconds (time r + duration r)).

(** [TABLE.get(label, label)] on a cell: only a string can be a key of the
    table. *)
Definition get_or_same (table : gmap string string) (label : cell) : cell :=
  match label with
  | VStr s => VStr (default s (table !! s))
  | _ => label
  end.

(** The loop shared by the label and beat fixups:
    [for i, v in enumerate(annot.data["value"]): annot.data.loc[i, "value"] = h(v)] *)
Definition write_value (h : cell -> cell) (f : frame) (iv : nat * cell) : frame :=
  loc_set_value iv.1 (h iv.2) f.

Definition rewrite_values (h : cell -> cell) (annot : Annotation) : Annotation :=
  with_data
    (foldl (write_value h) (data annot) (enumerate (map value (rows (data annot)))))
    annot.

Definition fix_labels (table : gmap string string) : Annotation -> Annotation :=
  rewrite_values (get_or_same table).

Definition fix_chord_labels : Annotation -> Annotation := fix_labels CHORDS_DICT.
Definition fix_key_labels : Annotation -> Annotation := fix_labels KEYS_DICT.

(** The positions [fix_ranges] collects. *)
Definition empty_range_idxs (f : frame) : list nat :=
  (filter (fun id : nat * Z => Qle_bool (total_seconds id.2) 0 = true)
          (enumerate (map duration (rows f)))).*1.

Definition fix_ranges (annot : Annotation) : result Annotation :=
  f ← drop (empty_range_idxs (data annot)) (data annot);
  Ok (with_data f annot).

(** The positions [fix_silence] collects; [label.lower()] raises on a
    cell that is not a string. *)
Fixpoint silence_idxs (vals : list (nat * cell)) : result (list nat) :=
  match vals with
  | [] => Ok []
  | (i, VStr label) :: rest =>
      idxs ← silence_idxs rest;
      Ok (if String.eqb (lower label) "silence" then i :: idxs else idxs)
  | _ :: _ => Raise AttributeError
  end.

Definition fix_silence (annot : Annotation) : result Annotation :=
  idxs ← silence_idxs (enumerate (map value (rows (data annot))));
  f ← drop idxs (data annot);
  Ok (with_data f annot).

(** The fixed metadata attached to every annotation. *)
Definition ann_meta : AnnotationMetadata :=
  {| curator_name := "Matthias Mauch";
     curator_email := "m.mauch@qmul.ac.uk";
     data_source := "";
     version := 1.0%float;
     corpus := "Isophonics";
     annotator := None;
     validation := "" |}.

(** The two dicts [process] fills while it walks the files. *)
Record tracks := {
  all_jams : gmap string JAMS;
  output_paths : gmap string string
}.

Definition no_tracks : tracks := {| all_jams := ∅; output_paths := ∅ |}.

(** [jam.annotations[-1]] changed in place by [f]. *)
Definition update_last (f : Annotation -> result Annotation) (jam : JAMS)
  : result JAMS :=
  match last (annotations jam) with
  | None => Raise IndexError
  | Some a =>
      a' ← f a;
      Ok (with_annotations (<[(length (annotations jam) - 1)%nat := a']>
                              (annotations jam)) jam)
  end.

(** [jam.annotations[-1]], which [annot] aliases after [import_lab]. *)
Definition last_annotation (jam : JAMS) : result Annotation :=
  match last (annotations jam) with
  | None => Raise IndexError
  | Some a => Ok a
  end.

(** [jam.file_metadata.duration = get_duration_from_annot(annot)], where
    [annot] is the annotation [import_lab] appended last. *)
Definition set_duration (jam : JAMS) : result JAMS :=
  annot ← last_annotation jam;
  dur ← get_duration_from_annot annot;
  Ok (with_duration (Some dur) jam).

Section Process.

(** [jams.util.filebase] *)
Variable filebase : string -> string.

(** The events [jams.util.import_lab(namespace, filename, sep=...)] reads
    from a lab file, or the exception it raises. *)
Variable read_lab : string -> string -> option string -> result (list observation).

(** [float(s)] on a string; [None] is ValueError. *)
Variable float_of_string : string -> option float.

(** The order in which [for title in all_jams] enumerates the dict. *)
Variable iterkeys : gmap string JAMS -> list string.

(** [jams.util.smkdirs(dpath)] *)
Variable smkdirs : string -> result unit.

(** [jam.save(out_file)] *)
Variable save : string -> JAMS -> result unit.

(** [import_lab(namespace, lab_file, jam=jam, ...)]: a new annotation
    holding the events is appended to the jam. *)
Definition import_lab (ns lab_file : string) (sep : option string) (jam : JAMS)
  : result JAMS :=
  evs ← read_lab ns lab_file sep;
  Ok (with_annotations
        (annotations jam ++ [with_data (frame_of evs) (new_Annotation ns)]) jam).

(** [float(value)] and the retyping of the column: a string that does not
    parse becomes None, then NaN. *)
Definition to_float (v : cell) : cell :=
  match v with
  | VStr s => match float_of_string s with Some x => VNum x | None => VNaN end
  | VNum x => VNum x
  | VNaN => VNaN
  end.

Definition fix_beats_values : Annotation -> Annotation :=
  rewrite_values to_float.

(** The first-encounter block of the loop: a new JAMS, its metadata and
    its output path. *)
Definition register (in_dir out_dir : string) (st : tracks) (lab_file : string)
  : result (tracks * list log_record) :=
  let title := filebase lab_file in
  match all_jams st !! title with
  | Some _ => Ok (st, [])
  | None =>
      let parts := split "/" (strip_chars "/" (replace in_dir "" lab_file)) in
      artist ← match parts !! 1%nat with
               | Some a => Ok a
               | None => Raise IndexError
               end;
      let jam := fill_file_metadata new_JAMS artist title in
      let out := replace ".lab" ".jams" (path_join out_dir (List.skipn 1 parts)) in
      Ok ({| all_jams := <[title := jam]> (all_jams st);
             output_paths := <[title := out]> (output_paths st) |},
          [Info (title +:+ " -> " +:+ out)])
  end.

(** The if/elif chain on the category keyword found in the path. *)
Definition annotate (jam : JAMS) (lab_file : string) : result JAMS :=
  if contains (ISO_ATTRS !!! "beat") lab_file then
    jam ← match import_lab (NS_DICT !!! "beat") lab_file None jam with
          | Raise TypeError =>
              import_lab (NS_DICT !!! "beat") lab_file (Some (TAB +:+ "+")) jam
          | r => r
          end;
    update_last (fun annot => Ok (fix_beats_values annot)) jam
  else if contains (ISO_ATTRS !!! "chord") lab_file then
    jam ← import_lab (NS_DICT !!! "chord") lab_file None jam;
    jam ← update_last (fun a => Ok (fix_chord_labels a)) jam;
    jam ← update_last fix_ranges jam;
    set_duration jam
  else if contains (ISO_ATTRS !!! "key") lab_file then
    jam ← import_lab (NS_DICT !!! "key") lab_file None jam;
    jam ← update_last (fun a => Ok (fix_key_labels a)) jam;
    jam ← update_last fix_ranges jam;
    update_last fix_silence jam
  else if contains (ISO_ATTRS !!! "segment") lab_file then
    jam ← import_lab (NS_DICT !!! "segment") lab_file None jam;
    jam ← update_last fix_ranges jam;
    set_duration jam
  else Ok jam.

(** One iteration of [for lab_file in all_labs]: what it logs, and the
    dicts it leaves or the exception it raises. *)
Definition process_file (in_dir out_dir : string) (st : tracks)
    (lab_file : string) : list log_record * result tracks :=
  let title := filebase lab_file in
  match register in_dir out_dir st lab_file with
  | Raise e => ([], Raise e)
  | Ok (st, lg) =>
      (lg,
       jam ← match all_jams st !! title with
             | Some jam => Ok jam
             | None => Raise (KeyError title)
             end;
       jam ← annotate jam lab_file;
       jam ← update_last (fun a => Ok (with_metadata ann_meta a)) jam;
       Ok {| all_jams := <[title := jam]> (all_jams st);
             output_paths := output_paths st |})
  end.

Fixpoint process_files (in_dir out_dir : string) (st : tracks)
    (all_labs : list string) : list log_record * result tracks :=
  match all_labs with
  | [] => ([], Ok st)
  | lab_file :: rest =>
      let r := process_file in_dir out_dir st lab_file in
      match r.2 with
      | Ok st' =>
          let r' := process_files in_dir out_dir st' rest in
          (r.1 ++ r'.1, r'.2)
      | Raise e => (r.1, Raise e)
      end
  end.

(** The body of [for title in all_jams]: the file it writes, or the
    exception it raises. *)
Definition save_title (st : tracks) (title : string) : result (string * JAMS) :=
  out_file ← match output_paths st !! title with
             | Some out_file => Ok out_file
             | None => Raise (KeyError title)
             end;
  smkdirs (path_split out_file).1;;
  jam ← match all_jams st !! title with
        | Some jam => Ok jam
        | None => Raise (KeyError title)
        end;
  save out_file jam;;
  Ok (out_file, jam).

(** The saving loop: files written until an exception ends it. *)
Fixpoint save_all (st : tracks) (titles : list string)
  : list (string * JAMS) * option exn :=
  match titles with
  | [] => ([], None)
  | title :: rest =>
      match save_title st title with
      | Ok written =>
          let r := save_all st rest in (written :: r.1, r.2)
      | Raise e => ([], Some e)
      end
  end.

(** [process]; [lab_files] and [txt_files] are what the two calls of
    [find_with_extension] return. *)
Definition process (in_dir out_dir : string) (lab_files txt_files : list string)
  : run :=
  let all_labs := lab_files ++ txt_files in
  let r := process_files in_dir out_dir no_tracks all_labs in
  match r.2 with
  | Raise e => {| saved := []; logged := r.1; raised := Some e |}
  | Ok st =>
      let s := save_all st (iterkeys (all_jams st)) in
      {| saved := s.1;
         logged := r.1 ++ [Info "Saving and validating JAMS..."];
         raised := s.2 |}
  end.

End Process.

End Isophonics.

(* ===================================================================== *)
(** * A concrete environment

    Instances of the parameters above, on which the theorems are run:
    a POSIX [filebase], a table of lab files, a [float] that parses
    nothing, dicts enumerated in key order, a disk on which every
    directory can be created, and two savers: one that refuses a record
    without duration and a file without the [.jams] extension, and one
    that refuses every record. *)
(* ===================================================================== *)

Module Sample.

(** [os.path.splitext(os.path.basename(p))[0]] *)
Definition filebase (p : string) : string :=
  let base := List.last (split "/" p) "" in
  let pieces := split "." base in
  let root := join "." (removelast pieces) in
  if String.eqb (strip_chars "." root) "" then base else root.

Definition ev (t d : Z) (v : string) : observation :=
  Observation (t * 1000000000) (d * 1000000000) (VStr v) 1.0%float.

Definition read_from (fs : gmap string (list observation))
    (ns lab_file : string) (sep : option string) : result (list observation) :=
  match fs !! lab_file with
  | Some evs => Ok evs
  | None => Raise TypeError
  end.

Definition no_float (s : string) : option float := None.

Definition iterkeys (m : gmap string JAMS) : list string := (map_to_list m).*1.

Definition smkdirs (dpath : string) : result unit := Ok ().

(** [s.endswith(suffix)] *)
Fixpoint endswith (suffix s : string) : bool :=
  String.eqb suffix s ||
  match s with
  | String _ s' => endswith suffix s'
  | EmptyString => false
  end.

Definition save (out_file : string) (jam : JAMS) : result unit :=
  match file_duration (file_metadata jam) with
  | None => Raise SchemaError
  | Some _ => if endswith ".jams" out_file then Ok () else Raise ParameterError
  end.

Definition save_refusing (out_file : string) (jam : JAMS) : result unit :=
  Raise SchemaError.

Definition process (fs : gmap string (list observation)) :=
  Isophonics.process filebase (read_from fs) no_float iterkeys smkdirs save.

Definition process_file (fs : gmap string (list observation)) :=
  Isophonics.process_file filebase (read_from fs) no_float.

Definition process_files (fs : gmap string (list observation)) :=
  Isophonics.process_files filebase (read_from fs) no_float.

Definition annotate (fs : gmap string (list observation)) :=
  Isophonics.annotate (read_from fs) no_float.

(** A small dataset: a chord file with an empty range in the middle, a
    key file that starts with an empty range and ends in silence, and a
    chord file with nothing but an empty range. *)
Definition chord_file : string := "iso/chordlab/Art/Alb/s1.lab".
Definition key_file : string := "iso/keylab/Art/Alb/s1.lab".
Definition empty_chord_file : string := "iso/chordlab/Art/Alb/s2.lab".

Definition chord_events : list observation :=
  [ev 0 2 "E:4"; ev 2 0 "X"; ev 2 3 "A"].
Definition key_events : list observation :=
  [ev 0 0 "N"; ev 0 1 "C"; ev 1 1 "Silence"].

Definition lab_files : gmap string (list observation) :=
  list_to_map [(chord_file, chord_events); (key_file, key_events);
               (empty_chord_file, [ev 0 0 "N"])].

(** A line of the vote file. *)
Definition vote_line (track_id : string) (gs : list string) : string :=
  join TAB (track_id :: gs) +:+ LF.

Definition thirteen_genres : list string :=
  ["Blues"; "Country"; "Electronic"; "Folk"; "Jazz"; "Latin"; "Metal";
   "New Age"; "Pop"; "Punk"; "Rap"; "Reggae"; "RnB"].

End Sample.

(* ===================================================================== *)
(** * Notions the properties are stated with *)
(* ===================================================================== *)

Module Notions.

Import Tagtraum.

(** The fields of a vote-file line, as the loader counts them. *)
Definition fields (line : string) : list string := split TAB (strip line).

Definition is_comment (line : string) : bool := startswith "#" line.

(** The vote record a line of the vote file carries: none for a comment
    and for a line that has neither two nor three fields. *)
Definition vote_record (line : string) : option (string * list string) :=
  if is_comment line then None
  else match fields line with
       | [track_id; genre] => Some (track_id, [genre])
       | [track_id; majority; minority] => Some (track_id, [majority; strip minority])
       | _ => None
       end.

Definition vote_records (lines : list string) : list (string * list string) :=
  omap vote_record lines.

(** A three-field (minority-vote) line. *)
Definition three_fields (line : string) : bool :=
  negb (is_comment line) && (length (fields line) =? 3)%nat.

(** The last record of a track id among the records of a file. *)
Definition last_record (track_id : string) (recs : list (string * list string))
  : option (list string) :=
  snd <$> last (filter (fun r => r.1 = track_id) recs).

(** The exact value of a finite binary64 number. *)
Definition float_to_Q (x : float) : option Q :=
  match Prim2SF x with
  | S754_zero _ => Some 0%Q
  | S754_finite s m e =>
      let n := if s then Z.neg m else Z.pos m in
      Some (inject_Z n * Qpower 2 e)%Q
  | _ => None
  end.

(** The events of the annotations of a file. *)
Definition events (jam : JAMS) : list (list observation) :=
  map (fun a => rows (data a)) (annotations jam).

(** A genre-vote event. *)
Definition vote_event (g : string) (c : float) : observation :=
  Observation 0 0 (VStr g) c.

(** The run reports the failure of a track: it ends with the missing-key
    error of that track, or a warning of the log names the track. *)
Definition reported (r : run) (track_id : string) : Prop :=
  raised r = Some (KeyError track_id)
  ∨ ∃ msg, Warning msg ∈ logged r ∧ contains track_id msg = true.

(** Per-track isolation of a missing identity, as the specification
    words it: every vote-bearing track without an identity is reported,
    and every vote-bearing track with an identity is emitted. *)
Definition missing_identity_isolated
    (smkdirs : string -> result unit) (save : string -> JAMS -> result unit)
    (iteritems : gmap string (list string) -> list (string * list string))
    (votes identities : list string) (out_dir : string) : Prop :=
  let d := (load_tagtraum_dataset votes).1 in
  let ids := (load_msd_metadata identities (tagtraum_values d)).1 in
  let r := process smkdirs save iteritems votes identities out_dir in
  ∀ track_id genres, tagtraum_values d !! track_id = Some genres →
    match ids !! track_id with
    | None => reported r track_id
    | Some _ => ∃ written,
        convert_track d ids out_dir track_id genres = Ok written
        ∧ written ∈ saved r
    end.

End Notions.

Import Notions.

Module IsoNotions.

Import Isophonics.

(** An event that spans time. *)
Definition positive (o : observation) : Prop := (0 < duration o)%Z.

(** The annotation sets of the timed-range categories. *)
Definition timed (a : Annotation) : Prop :=
  namespace a ∈ ["chord_harte"; "key_mode"; "segment_isophonics"].

(** An event whose value went through [h]. *)
Definition with_value (h : cell -> cell) (o : observation) : observation :=
  Observation (time o) (duration o) (h (value o)) (confidence o).

(** An event whose label went through a correction table. *)
Definition relabel (table : gmap string string) : observation -> observation :=
  with_value (get_or_same table).

#[global] Instance positive_dec o : Decision (positive o).
Proof. unfold positive. apply _. Defined.

(** An event whose value is, up to case, the silence marker. *)
Definition is_silence (o : observation) : Prop :=
  ∃ label, value o = VStr label ∧ lower label = "silence".

Definition silent_cell (c : cell) : bool :=
  match c with
  | VStr label => String.eqb (lower label) "silence"
  | _ => false
  end.

(** An event whose value is a string. *)
Definition labelled (o : observation) : Prop := ∃ label, value o = VStr label.

(** The path segments the artist is taken from. *)
Definition path_parts (in_dir lab_file : string) : list string :=
  split "/" (strip_chars "/" (replace in_dir "" lab_file)).

(** A path that carries none of the category keywords. *)
Definition matches_none (lab_file : string) : Prop :=
  contains "beat" lab_file = false ∧ contains "chordlab" lab_file = false
  ∧ contains "keylab" lab_file = false ∧ contains "seglab" lab_file = false.

(** An annotation freshly imported from a lab file. *)
Definition imported (ns : string) (evs : list observation) : Annotation :=
  with_data (frame_of evs) (new_Annotation ns).

(** The key fixups, in the order [process] applies them. *)
Definition key_fixups (annot : Annotation) : result Annotation :=
  annot ← fix_ranges (fix_key_labels annot);
  fix_silence annot.

(** The Duration Deriver as the specification words it: the end of the
    last event of a non-empty set, and a duration left unset for an empty
    one. *)
Definition duration_as_specified (jam : JAMS) (annot : Annotation) : Prop :=
  match last (rows (data annot)) with
  | Some e =>
      ∃ jam', set_duration jam = Ok jam'
              ∧ file_duration (file_metadata jam')
                = Some (total_seconds (time e + duration e))
  | None =>
      ∃ jam', set_duration jam = Ok jam'
              ∧ file_duration (file_metadata jam') = None
  end.

(** A file that is skipped and reported: the iteration leaves the tracks
    as they were, writes to the log, and the loop goes on. *)
Definition skipped_with_report (st : tracks)
    (r : list log_record * result tracks) : Prop :=
  r.2 = Ok st ∧ r.1 ≠ [].

(** The key fixups as the specification words them: no silence is
    retained, and the silence pass drops nothing else. *)
Definition silence_removed (evs : list observation) (out : Annotation) : Prop :=
  (∀ o, o ∈ rows (data out) → ¬ is_silence o)
  ∧ (∀ o, o ∈ evs → positive o → ¬ is_silence o →
       relabel KEYS_DICT o ∈ rows (data out)).

(** What holds of the tracks between two iterations of a run: every track
    has an annotation, every annotation carries the fixed metadata, and
    the events of the timed-range sets span time. *)
Definition settled (a : Annotation) : Prop :=
  annotation_metadata a = Some ann_meta
  ∧ (timed a → Forall positive (rows (data a))).

Definition tracks_settled (st : tracks) : Prop :=
  ∀ title jam, all_jams st !! title = Some jam →
    annotations jam ≠ [] ∧ Forall settled (annotations jam).

End IsoNotions.

Import IsoNotions.

Module MoreNotions.

Import Tagtraum.

(** The identity a line of the identity file carries: none for a line
    that does not have four fields. *)
Definition identity_record (line : string) : option (string * (string * string)) :=
  match split "<SEP>" (strip line) with
  | [track_id; _; artist; title] => Some (track_id, (artist, title))
  | _ => None
  end.

(** The last identity of a track id among the lines of a file. *)
Definition last_identity (track_id : string) (lines : list string)
  : option (string * string) :=
  snd <$> last (filter (fun r => r.1 = track_id) (omap identity_record lines)).

(** A data line of the vote file that carries no vote record. *)
Definition unparsed (line : string) : bool :=
  negb (is_comment line) && bool_decide (vote_record line = None).

(** The confidences of the events of a vote list, in order. *)
Definition confidences (d : dataset) (genres : list string) : list float :=
  if (length genres =? 1)%nat then [1.0%float]
  else [majority_confidence d; minority_confidence d].

(** The file the merger writes for a track. *)
Definition merged (d : dataset) (track_id : string) (identity : string * string)
    (genres : list string) : JAMS :=
  {| file_metadata := {| artist := identity.1; title := identity.2;
                         file_duration := Some 0%Q;
                         identifiers := Some track_id |};
     annotations :=
       [{| Jams.namespace := namespace d;
           data := imap pair (zip_with vote_event genres (confidences d genres));
           Jams.annotation_metadata := Some (annotation_metadata d) |}] |}.

End MoreNotions.

Import MoreNotions.

Module MoreIsoNotions.

Import Isophonics.

(** A cell that holds a number or the missing-value marker. *)
Definition numeric (c : cell) : Prop := c = VNaN ∨ ∃ x, c = VNum x.

(** The category a path is given by the if/elif chain. *)
Definition leaves_duration (lab_file : string) : Prop :=
  contains "beat" lab_file = true
  ∨ (contains "chordlab" lab_file = false
     ∧ (contains "keylab" lab_file = true ∨ contains "seglab" lab_file = false)).

(** More lab files: a chord file whose name holds the beat keyword, a
    beat file with a text extension, a key file without empty range. *)
Definition heartbeat_file : string := "iso/chordlab/Art/Alb/heartbeat.lab".
Definition beat_txt_file : string := "iso/beat/Art/Alb/s3.txt".
Definition clean_key_events : list observation :=
  [Sample.ev 0 1 "C#:modal"; Sample.ev 1 1 "Silence"; Sample.ev 2 1 "A"].

Definition more_lab_files : gmap string (list observation) :=
  list_to_map [(heartbeat_file, Sample.chord_events);
               (beat_txt_file, [Sample.ev 0 0 "1"; Sample.ev 1 0 "2"]);
               (Sample.chord_file, Sample.chord_events);
               (Sample.key_file, Sample.key_events)].

(** Every track that has a record has an output path. *)
Definition paired (st : tracks) : Prop :=
  ∀ t, is_Some (all_jams st !! t) → is_Some (output_paths st !! t).

(** The namespaces of [NS_DICT]. *)
Definition known_namespace (a : Annotation) : Prop :=
  namespace a ∈ ["beat"; "chord_harte"; "key_mode"; "segment_isophonics"].

(** Every record is filed under its title and holds annotations of the
    namespaces of [NS_DICT] only. *)
Definition named (st : tracks) : Prop :=
  ∀ t jam, all_jams st !! t = Some jam →
    title (file_metadata jam) = t ∧ Forall known_namespace (annotations jam).

(** A reader whose default separator fails with TypeError on every
    file, and which reads the table when given a separator. *)
Definition read_tabbed (fs : gmap string (list observation))
    (ns lab_file : string) (sep : option string) : result (list observation) :=
  match sep with
  | None => Raise TypeError
  | Some _ => Sample.read_from fs ns lab_file sep
  end.

End MoreIsoNotions.

Import MoreIsoNotions.

(* ===================================================================== *)
(** * Properties of the tagtraum parser *)
(* ===================================================================== *)

Module TagtraumProps.

Import Tagtraum.
Import Sample(vote_line, thirteen_genres).

(** ** The loader, line by line *)

Ltac case_fields line :=
  unfold load_line, vote_record, three_fields, is_comment, fields;
  destruct (startswith "#" line); simpl; [|
  destruct (split TAB (strip line)) as [|? [|? [|? [|? ?]]]]; simpl ].

Lemma load_line_values st line :
  tagtraum_values (load_line st line).1 =
  match vote_record line with
  | Some (t, v) => <[t := v]> (tagtraum_values st.1)
  | None => tagtraum_values st.1
  end.
Proof. case_fields line; reflexivity. Qed.

Lemma load_line_minority st line :
  has_minority_genres (load_line st line).1 =
  has_minority_genres st.1 || three_fields line.
Proof.
  case_fields line; rewrite ?orb_false_r, ?orb_true_r; reflexivity.
Qed.

Lemma load_line_genres st line :
  genres (load_line st line).1 =
  genres st.1 ∪ match vote_record line with
                | Some (_, v) => list_to_set v
                | None => ∅
                end.
Proof.
  case_fields line;
    rewrite ?union_empty_r_L, ?(assoc_L (∪)); reflexivity.
Qed.

Lemma load_lines_snoc st lines line :
  load_lines st (lines ++ [line]) = load_line (load_lines st lines) line.
Proof. unfold load_lines. by rewrite foldl_app. Qed.



Lemma load_lines_app st l1 l2 :
  load_lines st (l1 ++ l2) = load_lines (load_lines st l1) l2.
Proof. unfold load_lines. apply foldl_app. Qed.

(** A snapshot of the loader after any prefix of the file. *)
Lemma loaded_values lines : ∀ st t,
  tagtraum_values (load_lines st lines).1 !! t =
  match last_record t (vote_records lines) with
  | Some v => Some v
  | None => tagtraum_values st.1 !! t
  end.
Proof.
  induction lines as [|l lines IH] using rev_ind; intros st t; [reflexivity|].
  rewrite load_lines_snoc, load_line_values.
  unfold vote_records, last_record in *. rewrite omap_app. simpl.
  destruct (vote_record l) as [[t' v]|]; simpl.
  - rewrite filter_app, filter_cons. simpl. destruct (decide (t' = t)) as [->|Hne].
    + rewrite filter_nil, last_snoc. simpl. by rewrite lookup_insert_eq.
    + rewrite filter_nil, app_nil_r, lookup_insert_ne by done. apply IH.
  - rewrite app_nil_r. apply IH.
Qed.

Lemma loaded_minority lines : ∀ st,
  has_minority_genres (load_lines st lines).1 =
  has_minority_genres st.1 || existsb three_fields lines.
Proof.
  induction lines as [|l lines IH] using rev_ind; intros st.
  - simpl. by rewrite orb_false_r.
  - rewrite load_lines_snoc, load_line_minority, IH, existsb_app. simpl.
    rewrite orb_false_r. by rewrite orb_assoc.
Qed.

Lemma loaded_genres lines : ∀ st g,
  g ∈ genres (load_lines st lines).1 ↔
  g ∈ genres st.1 ∨ ∃ r, r ∈ vote_records lines ∧ g ∈ r.2.
Proof.
  induction lines as [|l lines IH] using rev_ind; intros st g.
  - simpl. split; [by left|]. intros [H|(r & Hr & _)]; [done|].
    by apply elem_of_nil in Hr.
  - rewrite load_lines_snoc, load_line_genres, elem_of_union, IH.
    unfold vote_records. rewrite omap_app. simpl.
    split.
    + intros [[H|(r & Hr & Hg)]|H]; [by left| |].
      * right. exists r. split; [|done]. apply elem_of_app. by left.
      * destruct (vote_record l) as [[t v]|]; [|by apply not_elem_of_empty in H].
        right. exists (t, v). split; [|by apply elem_of_list_to_set in H].
        apply elem_of_app. right. by apply list_elem_of_singleton.
    + intros [H|(r & Hr & Hg)]; [by left; left|].
      apply elem_of_app in Hr as [Hr|Hr]; [left; right; by exists r|].
      destruct (vote_record l) as [[t v]|]; [|by apply elem_of_nil in Hr].
      apply list_elem_of_singleton in Hr as ->. right.
      by apply elem_of_list_to_set.
Qed.



Lemma three_fields_record line :
  three_fields line = true ↔
  ∃ t v, vote_record line = Some (t, v) ∧ length v = 2%nat.
Proof.
  case_fields line; split; try discriminate;
    try (intros (t & v & E & L); simplify_eq; discriminate).
  all: intros _; eauto.
Qed.


Example vote_line_two_fields :
  map_to_list (tagtraum_values
    (load_tagtraum_dataset ["TRXYZ" +:+ TAB +:+ "Jazz" +:+ LF]).1)
  = [("TRXYZ", ["Jazz"])].
Proof. vm_compute. reflexivity. Qed.

(** Fields are counted after [strip()]: a trailing tab does not make a
    third field. *)
Example vote_line_trailing_tab :
  fields ("TRXYZ" +:+ TAB +:+ "Jazz" +:+ TAB +:+ LF) = ["TRXYZ"; "Jazz"].
Proof. vm_compute. reflexivity. Qed.

Example vote_line_three_fields :
  let d := (load_tagtraum_dataset
              ["TRABC" +:+ TAB +:+ "Rock" +:+ TAB +:+ "Pop" +:+ LF]).1 in
  map_to_list (tagtraum_values d) = [("TRABC", ["Rock"; "Pop"])]
  ∧ has_minority_genres d = true.
Proof. vm_compute. split; reflexivity. Qed.


(** C2 — the dataset variant is a function of the loaded vote file alone:
    cd1 when the set of distinct genres has exactly 13 elements; otherwise
    cd2 when a three-field (minority-vote) line was seen; otherwise cd2c.
    The genre set is the set of the genres of the parsed lines. *)
Theorem variant_inference (lines : list string) :
  let d := (load_tagtraum_dataset lines).1 in
  corpus d =
    (if decide (size (genres d) = 13%nat) then "msd tagtraum cd1"
     else if existsb three_fields lines then "msd tagtraum cd2"
     else "msd tagtraum cd2c")
  ∧ (∀ g, g ∈ genres d ↔ ∃ r, r ∈ vote_records lines ∧ g ∈ r.2).
Proof.
  intros d. subst d. unfold load_tagtraum_dataset. cbn [fst]. split.
  - unfold corpus, is_cd2, is_cd1. rewrite loaded_minority.
    cbn [fst empty_dataset has_minority_genres orb].
    destruct (decide _) as [->|Hne]; [reflexivity|].
    apply Nat.eqb_neq in Hne. by rewrite Hne.
  - intros g. rewrite loaded_genres. cbn [fst empty_dataset genres].
    split; [|by right]. intros [H|H]; [by apply not_elem_of_empty in H|done].
Qed.

(** C10 — with several data lines for one track id, the vote list stored
    for it is that of the last such line, while the genre set and the
    has-minority-votes flag collect the contributions of every parsed
    line; an overwritten line can therefore change the inferred variant. *)
Theorem duplicate_track_lines (lines : list string) :
  let d := (load_tagtraum_dataset lines).1 in
  (∀ track_id,
     tagtraum_values d !! track_id = last_record track_id (vote_records lines))
  ∧ (∀ g, g ∈ genres d ↔ ∃ r, r ∈ vote_records lines ∧ g ∈ r.2)
  ∧ (has_minority_genres d = true ↔
     ∃ r, r ∈ vote_records lines ∧ length r.2 = 2%nat)
  ∧ (∃ earlier later track_id v v',
       vote_record earlier = Some (track_id, v)
       ∧ vote_record later = Some (track_id, v')
       ∧ tagtraum_values (load_tagtraum_dataset [earlier; later]).1
         = tagtraum_values (load_tagtraum_dataset [later]).1
       ∧ corpus (load_tagtraum_dataset [earlier; later]).1
         ≠ corpus (load_tagtraum_dataset [later]).1).
Proof.
  intros d. subst d. unfold load_tagtraum_dataset. cbn [fst].
  split; [|split; [|split]].
  - intros t. rewrite loaded_values. cbn [fst empty_dataset tagtraum_values].
    rewrite lookup_empty. by destruct (last_record _ _).
  - intros g. rewrite loaded_genres. cbn [fst empty_dataset genres].
    split; [|by right]. intros [H|H]; [by apply not_elem_of_empty in H|done].
  - rewrite loaded_minority. cbn [fst empty_dataset has_minority_genres orb].
    split.
    + intros H. apply existsb_exists in H as (l & Hin & H3).
      apply three_fields_record in H3 as (t & v & E & L).
      exists (t, v). split; [|done]. unfold vote_records.
      apply list_elem_of_omap. exists l. split; [|done]. by apply list_elem_of_In.
    + intros (r & Hr & L).
      unfold vote_records in Hr. apply list_elem_of_omap in Hr as (l & Hin & E).
      apply existsb_exists. exists l. split; [by apply list_elem_of_In|].
      apply three_fields_record. destruct r as [t v]. eauto.
  - exists ("TRABC" +:+ TAB +:+ "Rock" +:+ TAB +:+ "Pop" +:+ LF),
           ("TRABC" +:+ TAB +:+ "Rock" +:+ LF), "TRABC", ["Rock"; "Pop"], ["Rock"].
    split; [reflexivity|]. split; [reflexivity|].
    split; [vm_compute; reflexivity | vm_compute; discriminate].
Qed.


(** The spec's two examples of the inference. *)
Example thirteen_genres_is_cd1 :
  let lines := imap (fun i g => vote_line ("TR" +:+ pretty i) [g]) thirteen_genres in
  corpus (load_tagtraum_dataset lines).1 = "msd tagtraum cd1"
  ∧ existsb three_fields lines = false.
Proof. vm_compute. split; reflexivity. Qed.

Example twenty_genres_with_minority_is_cd2 :
  let more := ["Rock"; "World"; "Vocal"; "Classical"; "Soul"; "Dance"; "Ska"] in
  let lines := vote_line "TRMIN" ["Rock"; "Pop"]
               :: imap (fun i g => vote_line ("TR" +:+ pretty i) [g])
                       (thirteen_genres ++ more) in
  size (genres (load_tagtraum_dataset lines).1) = 20%nat
  ∧ corpus (load_tagtraum_dataset lines).1 = "msd tagtraum cd2".
Proof. vm_compute. split; reflexivity. Qed.

(** ** The merger *)

Lemma convert_track_single d ids out_dir t a g :
  ids !! t = Some a →
  ∃ out jam, convert_track d ids out_dir t [g] = Ok (out, jam)
             ∧ events jam = [[vote_event g 1.0%float]].
Proof. intros H. unfold convert_track. rewrite H. simpl. eauto. Qed.

Lemma convert_track_pair d ids out_dir t a g1 g2 :
  ids !! t = Some a →
  ∃ out jam, convert_track d ids out_dir t [g1; g2] = Ok (out, jam)
             ∧ events jam = [[vote_event g1 (majority_confidence d);
                              vote_event g2 (minority_confidence d)]].
Proof. intros H. unfold convert_track. rewrite H. simpl. eauto. Qed.

Lemma convert_track_missing d ids out_dir t g :
  ids !! t = None → convert_track d ids out_dir t g = Raise (KeyError t).
Proof. intros H. unfold convert_track. by rewrite H. Qed.

(** The body of the loop is the construction of the record followed by
    its write. *)
Lemma save_track_cases smkdirs save d ids out_dir t g :
  save_track smkdirs save d ids out_dir t g
  = match convert_track d ids out_dir t g with
    | Ok w => match write smkdirs save w.1 w.2 with
              | Ok _ => Ok w
              | Raise e => Raise e
              end
    | Raise e => Raise e
    end.
Proof.
  unfold save_track, write.
  destruct (convert_track d ids out_dir t g) as [w|e]; [|reflexivity].
  cbn [mbind result_bind Py.bind].
  destruct (smkdirs _); [|reflexivity]. cbn [mbind result_bind Py.bind].
  by destruct (save _ _).
Qed.

Lemma save_track_Ok smkdirs save d ids out_dir t g w :
  convert_track d ids out_dir t g = Ok w →
  write smkdirs save w.1 w.2 = Ok () →
  save_track smkdirs save d ids out_dir t g = Ok w.
Proof. intros Hc Hw. by rewrite save_track_cases, Hc, Hw. Qed.

Lemma save_track_unbuilt smkdirs save d ids out_dir t g e :
  convert_track d ids out_dir t g = Raise e →
  save_track smkdirs save d ids out_dir t g = Raise e.
Proof. intros Hc. by rewrite save_track_cases, Hc. Qed.

Lemma convert_tracks_all smkdirs save d ids out_dir items : ∀ ws,
  Forall2 (fun item w => save_track smkdirs save d ids out_dir item.1 item.2 = Ok w)
          items ws →
  convert_tracks smkdirs save d ids out_dir items = (ws, None).
Proof.
  induction items as [|[t g] items IH]; intros ws H; inversion H; subst;
    [reflexivity|].
  simpl in *. match goal with E : save_track _ _ _ _ _ _ _ = _ |- _ => rewrite E end.
  by erewrite IH.
Qed.

Lemma convert_tracks_abort smkdirs save d ids out_dir pre t g post e : ∀ ws,
  Forall2 (fun item w => save_track smkdirs save d ids out_dir item.1 item.2 = Ok w)
          pre ws →
  save_track smkdirs save d ids out_dir t g = Raise e →
  convert_tracks smkdirs save d ids out_dir (pre ++ (t, g) :: post) = (ws, Some e).
Proof.
  induction pre as [|[t' g'] pre IH]; intros ws H He; inversion H; subst.
  - simpl. by rewrite He.
  - simpl in *. match goal with E : save_track _ _ _ _ _ _ _ = _ |- _ => rewrite E end.
    by erewrite IH.
Qed.

(** The loader only stores lists of one or two genres. *)
Lemma vote_record_length line t v :
  vote_record line = Some (t, v) → length v = 1%nat ∨ length v = 2%nat.
Proof. case_fields line; intros E; simplify_eq; auto. Qed.

Lemma loaded_record_length lines t v :
  tagtraum_values (load_tagtraum_dataset lines).1 !! t = Some v →
  length v = 1%nat ∨ length v = 2%nat.
Proof.
  unfold load_tagtraum_dataset. cbn [fst]. rewrite loaded_values.
  cbn [fst empty_dataset tagtraum_values]. rewrite lookup_empty.
  unfold last_record.
  destruct (last _) as [[t' v']|] eqn:E; [|discriminate]. simpl.
  intros [= ->]. apply last_Some_elem_of in E.
  apply list_elem_of_filter in E as [_ E].
  apply list_elem_of_omap in E as (l & _ & E).
  by apply vote_record_length in E.
Qed.

Lemma convert_track_ok d ids out_dir t g :
  is_Some (ids !! t) → length g = 1%nat ∨ length g = 2%nat →
  ∃ w, convert_track d ids out_dir t g = Ok w.
Proof.
  intros [a H] [L|L].
  - destruct g as [|g1 [|]]; try discriminate.
    destruct (convert_track_single d ids out_dir t a g1 H) as (o & j & E & _). eauto.
  - destruct g as [|g1 [|g2 [|]]]; try discriminate.
    destruct (convert_track_pair d ids out_dir t a g1 g2 H) as (o & j & E & _). eauto.
Qed.

Lemma convert_prefix_ok d ids out_dir (pre : list (string * list string)) :
  (∀ item, item ∈ pre →
     is_Some (ids !! item.1) ∧ (length item.2 = 1%nat ∨ length item.2 = 2%nat)) →
  ∃ ws, Forall2 (fun item w => convert_track d ids out_dir item.1 item.2 = Ok w) pre ws.
Proof.
  induction pre as [|item pre IH]; intros H; [by exists []|].
  destruct IH as [ws Hws]; [intros i Hi; apply H; by right|].
  destruct (H item) as [Hid Hlen]; [by left|].
  destruct (convert_track_ok d ids out_dir item.1 item.2 Hid Hlen) as [w Hw].
  exists (w :: ws). by constructor.
Qed.

(** Records that are built and written are saved. *)
Lemma built_and_written smkdirs save d ids out_dir
    (pre : list (string * list string)) ws :
  Forall2 (fun item w => convert_track d ids out_dir item.1 item.2 = Ok w) pre ws →
  (∀ item w, item ∈ pre → convert_track d ids out_dir item.1 item.2 = Ok w →
     write smkdirs save w.1 w.2 = Ok ()) →
  Forall2 (fun item w => save_track smkdirs save d ids out_dir item.1 item.2 = Ok w)
          pre ws.
Proof.
  induction 1 as [|item w pre ws Hc _ IH]; intros Hw; constructor.
  - apply save_track_Ok; [exact Hc|]. apply (Hw item w); [by left|exact Hc].
  - apply IH. intros i w' Hi. apply Hw. by right.
Qed.


(** C3 — a two-vote track gets two events whose confidences add up to
    exactly 1.0 under each variant: 2/3 and 1/3 (as binary64: [2.0/3.0]
    and its complement to 1.0, each within half a unit in the last place
    of the fraction) for cd1, 1/2 and 1/2 for cd2 and cd2c; the sum is 1
    both in binary64 arithmetic and for the exact values.  A single-vote
    track gets one event of confidence 1.0. *)
Theorem confidences_sum_to_one (d : dataset)
    (ids : gmap string (string * string)) (out_dir track_id : string)
    (identity : string * string) :
  ids !! track_id = Some identity →
  (∀ g, ∃ out jam,
     convert_track d ids out_dir track_id [g] = Ok (out, jam)
     ∧ events jam = [[vote_event g 1.0%float]])
  ∧ ∃ c1 c2 q1 q2,
      (∀ g1 g2, ∃ out jam,
         convert_track d ids out_dir track_id [g1; g2] = Ok (out, jam)
         ∧ events jam = [[vote_event g1 c1; vote_event g2 c2]])
      ∧ (c1 + c2)%float = 1.0%float
      ∧ float_to_Q c1 = Some q1 ∧ float_to_Q c2 = Some q2
      ∧ (q1 + q2 == 1)%Q
      ∧ ((corpus d = "msd tagtraum cd1"
          ∧ c1 = (2.0 / 3.0)%float ∧ c2 = (1.0 - 2.0 / 3.0)%float
          ∧ (Qabs (q1 - (2 # 3)) <= 1 # 2 ^ 54)%Q
          ∧ (Qabs (q2 - (1 # 3)) <= 1 # 2 ^ 54)%Q)
         ∨ ((corpus d = "msd tagtraum cd2" ∨ corpus d = "msd tagtraum cd2c")
            ∧ c1 = 0.5%float ∧ c2 = 0.5%float
            ∧ (q1 == (1 # 2))%Q ∧ (q2 == (1 # 2))%Q)).
Proof.
  intros Hid. split.
  - intros g. by eapply convert_track_single.
  - exists (majority_confidence d), (minority_confidence d).
    unfold minority_confidence, majority_confidence, corpus, is_cd2.
    destruct (is_cd1 d) eqn:E1.
    + eexists _, _. split; [intros g1 g2|].
      { destruct (convert_track_pair d ids out_dir track_id identity g1 g2 Hid)
          as (o & j & Ho & Hj).
        exists o, j. split; [exact Ho|]. rewrite Hj.
        unfold minority_confidence, majority_confidence. by rewrite E1. }
      split; [reflexivity|].
      split; [vm_compute; reflexivity|]. split; [vm_compute; reflexivity|].
      split; [reflexivity|]. left.
      split; [reflexivity|]. split; [reflexivity|]. split; [reflexivity|].
      split; apply Qle_bool_imp_le; vm_compute; reflexivity.
    + eexists _, _. split; [intros g1 g2|].
      { destruct (convert_track_pair d ids out_dir track_id identity g1 g2 Hid)
          as (o & j & Ho & Hj).
        exists o, j. split; [exact Ho|]. rewrite Hj.
        unfold minority_confidence, majority_confidence. by rewrite E1. }
      split; [reflexivity|].
      split; [vm_compute; reflexivity|]. split; [vm_compute; reflexivity|].
      split; [reflexivity|]. right.
      split; [simpl; destruct (has_minority_genres d); auto|].
      split; [reflexivity|]. split; [reflexivity|].
      split; vm_compute; reflexivity.
Qed.

Lemma confidences_sum_to_one_witness :
  let ids : gmap string (string * string) := {["TRABC" := ("Artist X", "Song Y")]} in
  ids !! "TRABC" = Some ("Artist X", "Song Y")
  ∧ ∃ out jam c1 c2,
      convert_track empty_dataset ids "out" "TRABC" ["Rock"; "Pop"] = Ok (out, jam)
      ∧ events jam = [[vote_event "Rock" c1; vote_event "Pop" c2]]
      ∧ (c1 + c2)%float = 1.0%float.
Proof.
  intros ids. split; [reflexivity|].
  destruct (confidences_sum_to_one empty_dataset ids "out" "TRABC"
              ("Artist X", "Song Y") eq_refl)
    as (_ & c1 & c2 & q1 & q2 & Hev & Hsum & _).
  destruct (Hev "Rock" "Pop") as (out & jam & Hc & He).
  exists out, jam, c1, c2. auto.
Defined.

(** The end-to-end scenario of the spec, in a file of 2 genres (cd2). *)
Example end_to_end_TRABC :
  saved (process Sample.smkdirs Sample.save map_to_list
           [vote_line "TRABC" ["Rock"; "Pop"]]
           ["TRABC<SEP>SOXYZ<SEP>Artist X<SEP>Song Y" +:+ LF] "out")
  = [("out/A/B/C/TRABC.jams",
      {| file_metadata := {| artist := "Artist X"; title := "Song Y";
                             file_duration := Some 0%Q;
                             identifiers := Some "TRABC" |};
         annotations :=
           [{| Jams.namespace := "tag_msd_tagtraum_cd2";
               data := [(0%nat, vote_event "Rock" 0.5%float);
                        (1%nat, vote_event "Pop" 0.5%float)];
               Jams.annotation_metadata :=
                 Some (annotation_metadata
                         (load_tagtraum_dataset [vote_line "TRABC" ["Rock"; "Pop"]]).1)
             |}] |})].
Proof. vm_compute. reflexivity. Qed.


Lemma isolated_reported smkdirs save iteritems votes identities out_dir t g :
  missing_identity_isolated smkdirs save iteritems votes identities out_dir →
  tagtraum_values (load_tagtraum_dataset votes).1 !! t = Some g →
  (load_msd_metadata identities
     (tagtraum_values (load_tagtraum_dataset votes).1)).1 !! t = None →
  reported (process smkdirs save iteritems votes identities out_dir) t.
Proof.
  intros H Hv Hn. specialize (H t g Hv). cbv zeta in H. by rewrite Hn in H.
Qed.

(** C1, as stated, fails: with two vote-bearing tracks that have no
    identity, no enumeration order of the vote dict, whatever the
    directory creation and the save do, yields a run in which both are
    reported and the identified track is emitted. *)
Lemma missing_identity_not_isolated :
  ¬ ∃ (smkdirs : string → result unit) (save : string → JAMS → result unit)
      (iteritems : gmap string (list string) → list (string * list string)),
      (∀ m, iteritems m ≡ₚ map_to_list m)
      ∧ missing_identity_isolated smkdirs save iteritems
          [vote_line "TRAAA" ["Rock"]; vote_line "TRBBB" ["Pop"];
           vote_line "TRCCC" ["Jazz"]]
          ["TRBBB<SEP>SOXYZ<SEP>Artist X<SEP>Song Y" +:+ LF] "out".
Proof.
  intros (smkdirs & save & iteritems & _ & H).
  pose proof (isolated_reported _ _ _ _ _ _ "TRAAA" ["Rock"] H eq_refl eq_refl) as HA.
  pose proof (isolated_reported _ _ _ _ _ _ "TRCCC" ["Jazz"] H eq_refl eq_refl) as HC.
  assert (Hlog : ∀ t msg,
    Warning msg ∈ logged (process smkdirs save iteritems
          [vote_line "TRAAA" ["Rock"]; vote_line "TRBBB" ["Pop"];
           vote_line "TRCCC" ["Jazz"]]
          ["TRBBB<SEP>SOXYZ<SEP>Artist X<SEP>Song Y" +:+ LF] "out") →
    contains t msg = true → False).
  { intros t msg Hin _. unfold process in Hin. cbn [logged] in Hin.
    vm_compute in Hin.
    repeat (apply elem_of_cons in Hin as [Hin|Hin]; [discriminate|]).
    by apply elem_of_nil in Hin. }
  destruct HA as [HA|(msg & Hin & Hc)]; [|by eapply Hlog].
  destruct HC as [HC|(msg & Hin & Hc)]; [|by eapply Hlog].
  rewrite HA in HC. discriminate.
Qed.

(** With the missing track enumerated first, the identified track is
    never emitted. *)
Example missing_identity_first :
  let r := process Sample.smkdirs Sample.save
             (fun _ => [("TRAAA", ["Rock"]); ("TRBBB", ["Pop"])])
             [vote_line "TRAAA" ["Rock"]; vote_line "TRBBB" ["Pop"]]
             ["TRBBB<SEP>SOXYZ<SEP>Artist X<SEP>Song Y" +:+ LF] "out" in
  saved r = [] ∧ raised r = Some (KeyError "TRAAA")
  ∧ logged r = [Info "Loading tagtraum dataset..."; Info "Loaded 2 items.";
                Info "Matching with metadata from MSD unique tracks...";
                Info ("Detected namespace " +:+ DQUOTE +:+ "tag_msd_tagtraum_cd2"
                      +:+ DQUOTE +:+ ".");
                Info "Saving and validating JAMS..."].
Proof. vm_compute. repeat split; reflexivity. Qed.

(** C1 (amended) — for a vote-bearing track without an identity, the
    merger raises the missing-key error when the loop reaches it, and the
    error ends the run.  The loop reaches it when the tracks enumerated
    before it have an identity and the write of each of their records
    (directory creation and validating save) succeeds: those tracks have
    then been emitted, no track enumerated from the missing one on is, and
    the log holds nothing but what the two loaders and the two
    announcements wrote. *)
Theorem missing_identity_aborts
    (smkdirs : string → result unit) (save : string → JAMS → result unit)
    (iteritems : gmap string (list string) → list (string * list string))
    (votes identities : list string) (out_dir : string)
    (pre post : list (string * list string))
    (track_id : string) (genres : list string) :
  let loaded := load_tagtraum_dataset votes in
  let d := loaded.1 in
  let unique := load_msd_metadata identities (tagtraum_values d) in
  let r := process smkdirs save iteritems votes identities out_dir in
  (∀ m, iteritems m ≡ₚ map_to_list m) →
  iteritems (tagtraum_values d) = pre ++ (track_id, genres) :: post →
  unique.1 !! track_id = None →
  (∀ item, item ∈ pre → is_Some (unique.1 !! item.1)) →
  (∀ item w, item ∈ pre →
     convert_track d unique.1 out_dir item.1 item.2 = Ok w →
     write smkdirs save w.1 w.2 = Ok ()) →
  convert_track d unique.1 out_dir track_id genres = Raise (KeyError track_id)
  ∧ save_track smkdirs save d unique.1 out_dir track_id genres
    = Raise (KeyError track_id)
  ∧ raised r = Some (KeyError track_id)
  ∧ Forall2 (fun item w => convert_track d unique.1 out_dir item.1 item.2 = Ok w)
            pre (saved r)
  ∧ logged r = loaded.2 ++ unique.2
               ++ [Info ("Detected namespace " +:+ DQUOTE +:+ namespace d
                         +:+ DQUOTE +:+ ".");
                   Info "Saving and validating JAMS..."].
Proof.
  intros loaded d unique r Hperm Hitems Hnone Hpre Hwritten.
  pose proof (convert_track_missing d unique.1 out_dir track_id genres Hnone) as Hraise.
  pose proof (save_track_unbuilt smkdirs save _ _ _ _ _ _ Hraise) as Hbody.
  destruct (convert_prefix_ok d unique.1 out_dir pre) as [ws Hws].
  { intros [t g] Hin. split; [by apply Hpre|].
    apply (loaded_record_length votes t g).
    apply elem_of_map_to_list. rewrite <- (Hperm _). fold loaded. fold d.
    rewrite Hitems. apply elem_of_app. by left. }
  pose proof (built_and_written smkdirs save _ _ _ _ _ Hws Hwritten) as Hsaved.
  pose proof (convert_tracks_abort smkdirs save d unique.1 out_dir pre track_id
                genres post _ ws Hsaved Hbody) as Hrun.
  subst r. unfold process. fold loaded. fold d. fold unique.
  rewrite Hitems, Hrun. simpl. auto.
Qed.

Lemma missing_identity_aborts_witness :
  let votes := [vote_line "TRBBB" ["Pop"]; vote_line "TRAAA" ["Rock"];
                vote_line "TRCCC" ["Jazz"; "Blues"]] in
  let r := process Sample.smkdirs Sample.save map_to_list votes
             ["TRBBB<SEP>SOXYZ<SEP>Artist X<SEP>Song Y" +:+ LF;
              "TRCCC<SEP>SOABC<SEP>Artist Z<SEP>Song W" +:+ LF] "out" in
  let r' := process Sample.smkdirs Sample.save_refusing map_to_list votes
              ["TRBBB<SEP>SOXYZ<SEP>Artist X<SEP>Song Y" +:+ LF] "out" in
  (raised r = Some (KeyError "TRAAA") ∧ length (saved r) = 1%nat)
  ∧ (raised r' = Some (KeyError "TRCCC") ∧ length (saved r') = 0%nat).
Proof.
  intros votes r r'. split.
  - destruct (missing_identity_aborts Sample.smkdirs Sample.save map_to_list
                votes
                ["TRBBB<SEP>SOXYZ<SEP>Artist X<SEP>Song Y" +:+ LF;
                 "TRCCC<SEP>SOABC<SEP>Artist Z<SEP>Song W" +:+ LF] "out"
                [("TRCCC", ["Jazz"; "Blues"])] [("TRBBB", ["Pop"])]
                "TRAAA" ["Rock"])
      as (_ & _ & Hr & Hs & _).
    + reflexivity.
    + vm_compute. reflexivity.
    + vm_compute. reflexivity.
    + intros item Hin. apply list_elem_of_singleton in Hin as ->.
      vm_compute. eauto.
    + intros item w Hin Hw. apply list_elem_of_singleton in Hin as ->.
      vm_compute in Hw. injection Hw as <-. reflexivity.
    + split; [exact Hr|]. apply Forall2_length in Hs. symmetry. exact Hs.
  - destruct (missing_identity_aborts Sample.smkdirs Sample.save_refusing
                map_to_list votes
                ["TRBBB<SEP>SOXYZ<SEP>Artist X<SEP>Song Y" +:+ LF] "out"
                [] [("TRAAA", ["Rock"]); ("TRBBB", ["Pop"])]
                "TRCCC" ["Jazz"; "Blues"])
      as (_ & _ & Hr & Hs & _).
    + reflexivity.
    + vm_compute. reflexivity.
    + vm_compute. reflexivity.
    + intros item Hin. by apply elem_of_nil in Hin.
    + intros item w Hin. by apply elem_of_nil in Hin.
    + split; [exact Hr|]. apply Forall2_length in Hs. symmetry. exact Hs.
Defined.

End TagtraumProps.

(* ===================================================================== *)
(** * Properties of the Isophonics parser *)
(* ===================================================================== *)

Module IsophonicsProps.

Import Isophonics.

(** ** Frames whose labels are their positions *)

Lemma filter_ext_elem {A} (P Q : A → Prop)
    `{!∀ x, Decision (P x)} `{!∀ x, Decision (Q x)} (l : list A) :
  (∀ x, x ∈ l → (P x ↔ Q x)) → filter P l = filter Q l.
Proof.
  induction l as [|x l IH]; intros Hext; [reflexivity|].
  rewrite !filter_cons.
  assert (Hx : P x ↔ Q x) by (apply Hext; by left).
  rewrite IH by (intros y Hy; apply Hext; by right).
  destruct (decide (P x)), (decide (Q x)); tauto.
Qed.

Lemma enumerate_snoc {A} (l : list A) x :
  enumerate (l ++ [x]) = enumerate l ++ [(length l, x)].
Proof.
  unfold enumerate. rewrite imap_app. simpl. by rewrite Nat.add_0_r.
Qed.

Lemma frame_of_enumerate evs : frame_of evs = enumerate evs.
Proof.
  induction evs as [|o evs IH] using rev_ind; [reflexivity|].
  unfold frame_of in *. rewrite foldl_app. simpl. rewrite IH.
  unfold add_observation, enumerate. rewrite length_imap.
  symmetry. apply enumerate_snoc.
Qed.

Lemma rows_enumerate evs : rows (enumerate evs) = evs.
Proof.
  unfold rows, enumerate. rewrite fmap_imap.
  induction evs as [|o evs IH] using rev_ind; [reflexivity|].
  rewrite imap_app. simpl. by rewrite IH.
Qed.

Lemma labels_enumerate evs : labels (enumerate evs) = seq 0 (length evs).
Proof.
  unfold labels.
  induction evs as [|o evs IH] using rev_ind; [reflexivity|].
  rewrite enumerate_snoc, fmap_app, IH, length_app, seq_app. reflexivity.
Qed.

Lemma elem_of_enumerate {A} (l : list A) i x :
  (i, x) ∈ enumerate l ↔ l !! i = Some x.
Proof.
  unfold enumerate. rewrite elem_of_lookup_imap. split.
  - intros (j & y & E & H). by simplify_eq.
  - intros H. eauto.
Qed.

Lemma loc_set_value_absent i v (f : frame) :
  i ∉ labels f → loc_set_value i v f = f.
Proof.
  unfold labels, loc_set_value. induction f as [|[j o] f IH]; intros H;
    [reflexivity|].
  simpl in *. apply not_elem_of_cons in H as [Hne Hf].
  destruct (Nat.eqb_spec j i) as [->|_]; [done|]. by rewrite IH.
Qed.

Section Relabel.

Variable h : cell → cell.

Lemma foldl_write_head (r : nat * observation) ups : ∀ f,
  r.1 ∉ ups.*1 →
  foldl (write_value h) (r :: f) ups = r :: foldl (write_value h) f ups.
Proof.
  induction ups as [|[i v] ups IH]; intros f H; [reflexivity|].
  simpl in *. apply not_elem_of_cons in H as [Hne Hups].
  unfold write_value at 2. unfold loc_set_value. simpl.
  destruct (Nat.eqb_spec r.1 i) as [E|_]; [done|].
  by rewrite IH.
Qed.

Lemma zip_seq_labels {A} (l : list A) k :
  (zip (seq k (length l)) l).*1 = seq k (length l).
Proof. apply fst_zip. by rewrite length_seq. Qed.

Lemma rewrite_from evs : ∀ k,
  foldl (write_value h) (zip (seq k (length evs)) evs)
        (zip (seq k (length evs)) (map value evs))
  = zip (seq k (length evs)) (map (with_value h) evs).
Proof.
  induction evs as [|o evs IH]; intros k; [reflexivity|].
  simpl. unfold write_value at 2. unfold loc_set_value. simpl.
  rewrite Nat.eqb_refl.
  change (map _ (zip (seq (S k) (length evs)) evs))
    with (loc_set_value k (h (value o)) (zip (seq (S k) (length evs)) evs)).
  rewrite loc_set_value_absent.
  2:{ unfold labels. rewrite zip_seq_labels, elem_of_seq. lia. }
  rewrite foldl_write_head.
  2:{ simpl. rewrite <- (length_map value evs), zip_seq_labels, elem_of_seq. lia. }
  f_equal. apply IH.
Qed.

End Relabel.

Lemma enumerate_zip {A} (l : list A) : enumerate l = zip (seq 0 (length l)) l.
Proof.
  induction l as [|x l IH] using rev_ind; [reflexivity|].
  rewrite enumerate_snoc, IH, length_app, seq_app. simpl.
  rewrite zip_with_app by (by rewrite length_seq). reflexivity.
Qed.

Lemma rewrite_values_imported h ns evs :
  rewrite_values h (imported ns evs) = imported ns (map (with_value h) evs).
Proof.
  unfold rewrite_values, imported, with_data. simpl. f_equal.
  rewrite !frame_of_enumerate, rows_enumerate, !enumerate_zip, !length_map.
  apply rewrite_from.
Qed.

Lemma fix_labels_imported table ns evs :
  fix_labels table (imported ns evs) = imported ns (map (relabel table) evs).
Proof. apply rewrite_values_imported. Qed.

(** ** Dropping rows *)

Lemma total_seconds_sign d :
  Qle_bool (total_seconds d) 0 = true ↔ (d ≤ 0)%Z.
Proof.
  unfold Qle_bool, total_seconds. simpl. rewrite Z.leb_le. lia.
Qed.

Lemma drop_present idxs (f : frame) :
  (∀ i, i ∈ idxs → i ∈ labels f) →
  drop idxs f = Ok (filter (fun r : nat * observation => r.1 ∉ idxs) f).
Proof.
  intros Hin. unfold drop.
  assert (E : filter (λ i, i ∉ labels f) idxs = []).
  { clear -Hin. induction idxs as [|i idxs IH]; [reflexivity|].
    rewrite filter_cons. destruct (decide (i ∉ labels f)) as [Hn|_].
    - exfalso. apply Hn, Hin. by left.
    - apply IH. intros j Hj. apply Hin. by right. }
  by rewrite E.
Qed.

Lemma drop_Ok idxs (f f' : frame) :
  drop idxs f = Ok f' →
  f' = filter (fun r : nat * observation => r.1 ∉ idxs) f.
Proof.
  unfold drop. destruct (filter _ idxs); [|discriminate]. by intros [= <-].
Qed.

Lemma rows_filter (P : observation → Prop) `{!∀ o, Decision (P o)} (f : frame) :
  rows (filter (fun r : nat * observation => P r.2) f) = filter P (rows f).
Proof.
  unfold rows. induction f as [|[i o] f IH]; [reflexivity|].
  rewrite filter_cons, fmap_cons, filter_cons. cbn [snd].
  destruct (decide (P o)); [rewrite fmap_cons; cbn [snd]|]; by rewrite IH.
Qed.

Lemma empty_range_idxs_enumerate evs i :
  i ∈ empty_range_idxs (enumerate evs) ↔
  ∃ o, evs !! i = Some o ∧ ¬ positive o.
Proof.
  unfold empty_range_idxs, positive. rewrite rows_enumerate, list_elem_of_fmap.
  split.
  - intros ([j d] & -> & H). apply list_elem_of_filter in H as [Hd H].
    apply elem_of_enumerate in H. simpl in *.
    rewrite list_lookup_fmap in H.
    destruct (evs !! j) as [o|] eqn:E; [|discriminate]. simpl in H.
    injection H as <-. exists o. split; [done|].
    apply total_seconds_sign in Hd. lia.
  - intros (o & E & Hd). exists (i, duration o). split; [done|].
    apply list_elem_of_filter. split.
    + simpl. apply total_seconds_sign. lia.
    + apply elem_of_enumerate. by rewrite list_lookup_fmap, E.
Qed.

Lemma fix_ranges_fresh (annot : Annotation) evs :
  data annot = enumerate evs →
  fix_ranges annot =
  Ok (with_data (filter (fun r : nat * observation => positive r.2)
                        (enumerate evs)) annot).
Proof.
  intros E. unfold fix_ranges. rewrite E, drop_present.
  - simpl. do 2 f_equal. apply filter_ext_elem. intros [i o] Hin. simpl.
    apply elem_of_enumerate in Hin. rewrite empty_range_idxs_enumerate.
    split.
    + intros Hn. destruct (decide (positive o)); [done|].
      exfalso. apply Hn. eauto.
    + intros Hp (o' & E' & Hn). by simplify_eq.
  - intros i Hi. apply empty_range_idxs_enumerate in Hi as (o & Hi & _).
    rewrite labels_enumerate, elem_of_seq. apply lookup_lt_Some in Hi. lia.
Qed.

Lemma fix_ranges_imported ns evs :
  ∃ annot, fix_ranges (imported ns evs) = Ok annot
           ∧ namespace annot = ns
           ∧ annotation_metadata annot = None
           ∧ rows (data annot) = filter positive evs.
Proof.
  eexists. split.
  - apply fix_ranges_fresh. unfold imported. simpl. apply frame_of_enumerate.
  - simpl. repeat split. by rewrite (rows_filter positive), rows_enumerate.
Qed.

(** Whatever [fix_silence] returns is a part of what it was given. *)
Lemma fix_silence_sublist annot annot' :
  fix_silence annot = Ok annot' →
  namespace annot' = namespace annot
  ∧ annotation_metadata annot' = annotation_metadata annot
  ∧ rows (data annot') `sublist_of` rows (data annot).
Proof.
  unfold fix_silence.
  destruct (silence_idxs _) as [idxs|]; [|discriminate]. simpl.
  destruct (drop idxs (data annot)) as [f|] eqn:E; [|discriminate]. simpl.
  intros [= <-]. simpl. repeat split.
  apply drop_Ok in E as ->. unfold rows. apply fmap_sublist, sublist_filter.
Qed.

(** ** The silence pass on a frame whose labels are its positions *)

Lemma is_silence_silent o : is_silence o ↔ silent_cell (value o) = true.
Proof.
  unfold is_silence, silent_cell. split.
  - intros (label & -> & E). by apply String.eqb_eq.
  - destruct (value o) as [label| |]; try discriminate.
    intros E. exists label. split; [done|]. by apply String.eqb_eq.
Qed.

Lemma silence_idxs_labelled (vals : list (nat * cell)) :
  Forall (fun iv : nat * cell => ∃ label, iv.2 = VStr label) vals →
  silence_idxs vals
  = Ok (filter (fun iv : nat * cell => silent_cell iv.2 = true) vals).*1.
Proof.
  induction 1 as [|[i c] vals [label Hc] _ IH]; [reflexivity|].
  simpl in Hc. subst c. simpl. rewrite IH. cbn [mbind result_bind Py.bind].
  rewrite filter_cons. simpl.
  destruct (String.eqb (lower label) "silence"); by destruct (decide _).
Qed.

Lemma fix_silence_fresh (annot : Annotation) evs :
  data annot = enumerate evs →
  Forall labelled evs →
  fix_silence annot =
  Ok (with_data (filter (fun r : nat * observation => silent_cell (value r.2) = false)
                        (enumerate evs)) annot).
Proof.
  intros E Hlab. unfold fix_silence.
  rewrite E, rows_enumerate, silence_idxs_labelled.
  2:{ apply Forall_forall. intros [i c] Hin. apply elem_of_enumerate in Hin.
      rewrite list_lookup_fmap in Hin.
      destruct (evs !! i) as [o|] eqn:Ei; [|discriminate]. injection Hin as <-.
      rewrite Forall_forall in Hlab. apply Hlab.
      by apply list_elem_of_lookup_2 in Ei. }
  cbn [mbind result_bind Py.bind].
  assert (Hidx : ∀ i,
    i ∈ (filter (fun iv : nat * cell => silent_cell iv.2 = true)
                (enumerate (map value evs))).*1
    ↔ ∃ o, evs !! i = Some o ∧ silent_cell (value o) = true).
  { intros i. rewrite list_elem_of_fmap. split.
    - intros ([j c] & -> & H). apply list_elem_of_filter in H as [Hc H].
      apply elem_of_enumerate in H. rewrite list_lookup_fmap in H.
      simpl in *. destruct (evs !! j) as [o|]; [|discriminate].
      injection H as <-. eauto.
    - intros (o & Ei & Hc). exists (i, value o). split; [done|].
      apply list_elem_of_filter. split; [done|].
      apply elem_of_enumerate. by rewrite list_lookup_fmap, Ei. }
  rewrite drop_present.
  - cbn [mbind result_bind Py.bind]. do 2 f_equal.
    apply filter_ext_elem. intros [i o] Hin. simpl.
    apply elem_of_enumerate in Hin. rewrite Hidx. split.
    + intros Hn. destruct (silent_cell (value o)) eqn:Hc; [|done].
      exfalso. apply Hn. eauto.
    + intros Hc (o' & E' & Hc'). simplify_eq. congruence.
  - intros i Hi. apply Hidx in Hi as (o & Hi & _).
    rewrite labels_enumerate, elem_of_seq. apply lookup_lt_Some in Hi. lia.
Qed.

Lemma filter_all {A} (P : A → Prop) `{!∀ x, Decision (P x)} (l : list A) :
  Forall P l → filter P l = l.
Proof.
  induction 1 as [|x l Hx _ IH]; [reflexivity|].
  rewrite filter_cons, IH. by destruct (decide (P x)).
Qed.

(** When [fix_ranges] has nothing to drop, the silence pass does what its
    docstring says: the silences, and only they, are removed. *)
Lemma key_fixups_without_empty_ranges evs :
  Forall positive evs → Forall labelled evs →
  ∃ out,
    key_fixups (imported "key_mode" evs) = Ok out
    ∧ rows (data out)
      = filter (fun o => silent_cell (value o) = false) (map (relabel KEYS_DICT) evs)
    ∧ silence_removed evs out.
Proof.
  intros Hpos Hlab. unfold key_fixups, fix_key_labels.
  rewrite fix_labels_imported.
  set (evs' := map (relabel KEYS_DICT) evs).
  assert (Hpos' : Forall positive evs').
  { subst evs'. apply Forall_fmap. eapply Forall_impl; [exact Hpos|]. by intros o. }
  assert (Hlab' : Forall labelled evs').
  { subst evs'. apply Forall_fmap. eapply Forall_impl; [exact Hlab|].
    intros o [label Hl]. unfold labelled, relabel. simpl. rewrite Hl. simpl. eauto. }
  rewrite (fix_ranges_fresh _ evs') by (simpl; apply frame_of_enumerate).
  cbn [mbind result_bind Py.bind].
  assert (Hkeep : filter (fun r : nat * observation => positive r.2) (enumerate evs')
                  = enumerate evs').
  { apply filter_all. apply Forall_forall. intros [i o] Hin.
    apply elem_of_enumerate in Hin. rewrite Forall_forall in Hpos'.
    apply Hpos'. by apply list_elem_of_lookup_2 in Hin. }
  rewrite Hkeep.
  rewrite (fix_silence_fresh _ evs') by done.
  eexists. split; [reflexivity|].
  match goal with |- rows (data ?out) = _ ∧ _ => set (out' := out) end.
  assert (Hrows : rows (data out')
                  = filter (fun o => silent_cell (value o) = false) evs').
  { etransitivity;
      [exact (rows_filter (fun o => silent_cell (value o) = false) (enumerate evs'))|].
    by rewrite rows_enumerate. }
  split; [exact Hrows|]. unfold silence_removed. rewrite Hrows. split.
  - intros o Ho Hs. apply list_elem_of_filter in Ho as [Hc _].
    apply is_silence_silent in Hs. congruence.
  - intros o Ho _ Hns. apply list_elem_of_filter. split.
    + destruct (silent_cell (value (relabel KEYS_DICT o))) eqn:Hc; [|done].
      exfalso. apply Hns. apply is_silence_silent.
      unfold relabel in Hc. simpl in Hc.
      destruct (value o) as [label| |] eqn:Ev; simpl in *; try done.
      destruct (KEYS_DICT !! label) as [label'|] eqn:Ek; simpl in *; [|done].
      assert (label = "C#:modal") as ->.
      { apply elem_of_list_to_map_2 in Ek.
        apply list_elem_of_singleton in Ek. by injection Ek. }
      vm_compute in Ek. injection Ek as <-. discriminate.
    + subst evs'. apply list_elem_of_fmap. eauto.
Qed.

(** ** The duration *)

Lemma iloc_last_rows (f : frame) :
  iloc_last f = match last (rows f) with
                | Some o => Ok o
                | None => Raise IndexError
                end.
Proof.
  unfold iloc_last, rows. rewrite fmap_last. by destruct (last f).
Qed.

Lemma get_duration_from_annot_last annot :
  get_duration_from_annot annot =
  match last (rows (data annot)) with
  | Some e => Ok (total_seconds (time e + duration e))
  | None => Raise IndexError
  end.
Proof.
  unfold get_duration_from_annot. rewrite iloc_last_rows.
  by destruct (last _).
Qed.

Lemma set_duration_last (jam : JAMS) l annot :
  annotations jam = l ++ [annot] →
  set_duration jam =
  match last (rows (data annot)) with
  | Some e => Ok (with_duration (Some (total_seconds (time e + duration e))) jam)
  | None => Raise IndexError
  end.
Proof.
  intros E. unfold set_duration, last_annotation. rewrite E, last_snoc. simpl.
  rewrite get_duration_from_annot_last. by destruct (last _).
Qed.


(** ** One file *)

Lemma update_last_snoc (g : Annotation → result Annotation) (jam : JAMS) l a :
  annotations jam = l ++ [a] →
  update_last g jam = a' ← g a; Ok (with_annotations (l ++ [a']) jam).
Proof.
  intros E. unfold update_last. rewrite E, last_snoc.
  destruct (g a) as [a'|e]; [|reflexivity]. simpl.
  rewrite length_app. simpl.
  replace (length l + 1 - 1)%nat with (length l + 0)%nat by lia.
  by rewrite insert_app_r.
Qed.

Lemma update_last_nil (g : Annotation → result Annotation) (jam : JAMS) :
  annotations jam = [] → update_last g jam = Raise IndexError.
Proof. intros E. unfold update_last. by rewrite E. Qed.

Lemma not_timed_beat (a : Annotation) : namespace a = "beat" → ¬ timed a.
Proof.
  unfold timed. intros -> H.
  repeat (apply elem_of_cons in H as [H|H]; [discriminate|]).
  by apply elem_of_nil in H.
Qed.

Lemma filter_positive_relabel table evs :
  filter positive (map (relabel table) evs) = map (relabel table) (filter positive evs).
Proof.
  induction evs as [|o evs IH]; [reflexivity|].
  simpl. rewrite !filter_cons. simpl. rewrite IH.
  unfold positive at 1 3. simpl. by destruct (decide _).
Qed.

Section Files.

Variable filebase : string → string.
Variable read_lab : string → string → option string → result (list observation).
Variable float_of_string : string → option float.
Variable iterkeys : gmap string JAMS → list string.
Variable smkdirs : string → result unit.
Variable save : string → JAMS → result unit.

#[local] Abbreviation annotate := (annotate read_lab float_of_string).
#[local] Abbreviation import_lab := (import_lab read_lab).
#[local] Abbreviation process_file := (process_file filebase read_lab float_of_string).
#[local] Abbreviation process_files := (process_files filebase read_lab float_of_string).
#[local] Abbreviation save_title := (save_title smkdirs save).
#[local] Abbreviation save_all := (save_all smkdirs save).
#[local] Abbreviation process :=
  (process filebase read_lab float_of_string iterkeys smkdirs save).

Lemma import_lab_Ok ns lab_file sep jam evs :
  read_lab ns lab_file sep = Ok evs →
  import_lab ns lab_file sep jam
  = Ok (with_annotations (annotations jam ++ [imported ns evs]) jam).
Proof. intros E. unfold Isophonics.import_lab. by rewrite E. Qed.

Lemma import_lab_Raise ns lab_file sep jam e :
  read_lab ns lab_file sep = Raise e →
  import_lab ns lab_file sep jam = Raise e.
Proof. intros E. unfold Isophonics.import_lab. by rewrite E. Qed.

(** The chain, branch by branch. *)
Lemma annotate_none jam lab_file :
  matches_none lab_file → annotate jam lab_file = Ok jam.
Proof.
  intros (Hb & Hc & Hk & Hs). unfold Isophonics.annotate.
  change (ISO_ATTRS !!! "beat") with "beat".
  change (ISO_ATTRS !!! "chord") with "chordlab".
  change (ISO_ATTRS !!! "key") with "keylab".
  change (ISO_ATTRS !!! "segment") with "seglab".
  by rewrite Hb, Hc, Hk, Hs.
Qed.

Lemma annotate_chord jam lab_file :
  contains "beat" lab_file = false → contains "chordlab" lab_file = true →
  annotate jam lab_file =
  match read_lab "chord_harte" lab_file None with
  | Raise e => Raise e
  | Ok evs =>
      annot ← fix_ranges (imported "chord_harte" (map (relabel CHORDS_DICT) evs));
      set_duration (with_annotations (annotations jam ++ [annot]) jam)
  end.
Proof.
  intros Hb Hc. unfold Isophonics.annotate.
  change (ISO_ATTRS !!! "beat") with "beat".
  change (ISO_ATTRS !!! "chord") with "chordlab".
  change (NS_DICT !!! "chord") with "chord_harte".
  rewrite Hb, Hc.
  destruct (read_lab "chord_harte" lab_file None) as [evs|e] eqn:E.
  - rewrite (import_lab_Ok _ _ _ _ _ E). simpl.
    rewrite (update_last_snoc _ _ (annotations jam) (imported "chord_harte" evs))
      by reflexivity.
    simpl. unfold fix_chord_labels. rewrite fix_labels_imported.
    erewrite update_last_snoc by reflexivity.
    destruct (fix_ranges _) as [annot|e]; reflexivity.
  - by rewrite (import_lab_Raise _ _ _ _ _ E).
Qed.

Lemma annotate_key jam lab_file :
  contains "beat" lab_file = false → contains "chordlab" lab_file = false →
  contains "keylab" lab_file = true →
  annotate jam lab_file =
  match read_lab "key_mode" lab_file None with
  | Raise e => Raise e
  | Ok evs =>
      annot ← key_fixups (imported "key_mode" evs);
      Ok (with_annotations (annotations jam ++ [annot]) jam)
  end.
Proof.
  intros Hb Hc Hk. unfold Isophonics.annotate.
  change (ISO_ATTRS !!! "beat") with "beat".
  change (ISO_ATTRS !!! "chord") with "chordlab".
  change (ISO_ATTRS !!! "key") with "keylab".
  change (NS_DICT !!! "key") with "key_mode".
  rewrite Hb, Hc, Hk.
  destruct (read_lab "key_mode" lab_file None) as [evs|e] eqn:E.
  - rewrite (import_lab_Ok _ _ _ _ _ E). simpl.
    rewrite (update_last_snoc _ _ (annotations jam) (imported "key_mode" evs))
      by reflexivity.
    simpl. erewrite update_last_snoc by reflexivity.
    unfold key_fixups.
    destruct (fix_ranges _) as [annot|e]; [|reflexivity]. simpl.
    erewrite update_last_snoc by reflexivity.
    destruct (fix_silence _) as [annot'|e]; reflexivity.
  - by rewrite (import_lab_Raise _ _ _ _ _ E).
Qed.

Lemma annotate_segment jam lab_file :
  contains "beat" lab_file = false → contains "chordlab" lab_file = false →
  contains "keylab" lab_file = false → contains "seglab" lab_file = true →
  annotate jam lab_file =
  match read_lab "segment_isophonics" lab_file None with
  | Raise e => Raise e
  | Ok evs =>
      annot ← fix_ranges (imported "segment_isophonics" evs);
      set_duration (with_annotations (annotations jam ++ [annot]) jam)
  end.
Proof.
  intros Hb Hc Hk Hs. unfold Isophonics.annotate.
  change (ISO_ATTRS !!! "beat") with "beat".
  change (ISO_ATTRS !!! "chord") with "chordlab".
  change (ISO_ATTRS !!! "key") with "keylab".
  change (ISO_ATTRS !!! "segment") with "seglab".
  change (NS_DICT !!! "segment") with "segment_isophonics".
  rewrite Hb, Hc, Hk, Hs.
  destruct (read_lab "segment_isophonics" lab_file None) as [evs|e] eqn:E.
  - rewrite (import_lab_Ok _ _ _ _ _ E). simpl.
    erewrite update_last_snoc by reflexivity.
    destruct (fix_ranges _) as [annot|e]; reflexivity.
  - by rewrite (import_lab_Raise _ _ _ _ _ E).
Qed.

Lemma annotate_beat jam lab_file jam' :
  contains "beat" lab_file = true →
  annotate jam lab_file = Ok jam' →
  ∃ evs, jam' = with_annotations
                  (annotations jam
                   ++ [fix_beats_values float_of_string (imported "beat" evs)]) jam.
Proof.
  intros Hb. unfold Isophonics.annotate.
  change (ISO_ATTRS !!! "beat") with "beat".
  change (NS_DICT !!! "beat") with "beat".
  rewrite Hb.
  assert (Hone : ∀ evs,
    update_last (λ annot, Ok (fix_beats_values float_of_string annot))
      (with_annotations (annotations jam ++ [imported "beat" evs]) jam)
    = Ok (with_annotations
            (annotations jam
             ++ [fix_beats_values float_of_string (imported "beat" evs)]) jam)).
  { intros evs. by erewrite update_last_snoc by reflexivity. }
  destruct (read_lab "beat" lab_file None) as [evs|e] eqn:E1.
  - rewrite (import_lab_Ok _ _ _ _ _ E1). cbn [mbind result_bind Py.bind].
    rewrite Hone. intros [= <-]. eauto.
  - rewrite (import_lab_Raise _ _ _ _ _ E1).
    destruct e; try discriminate.
    destruct (read_lab "beat" lab_file (Some (TAB +:+ "+"))) as [evs|e] eqn:E2.
    + rewrite (import_lab_Ok _ _ _ _ _ E2). cbn [mbind result_bind Py.bind].
      rewrite Hone. intros [= <-]. eauto.
    + rewrite (import_lab_Raise _ _ _ _ _ E2). discriminate.
Qed.


(** What a file adds to the record of its track. *)
Lemma annotate_shape jam lab_file jam' :
  annotate jam lab_file = Ok jam' →
  (matches_none lab_file ∧ jam' = jam)
  ∨ ∃ a, annotations jam' = annotations jam ++ [a]
         ∧ (timed a → Forall positive (rows (data a))).
Proof.
  intros H.
  destruct (contains "beat" lab_file) eqn:Hb.
  { right. apply (annotate_beat _ _ _ Hb) in H as [evs ->].
    eexists. split; [reflexivity|]. intros Ht. by apply not_timed_beat in Ht. }
  destruct (contains "chordlab" lab_file) eqn:Hc.
  { right. rewrite (annotate_chord _ _ Hb Hc) in H.
    destruct (read_lab _ _ _) as [evs|]; [|discriminate].
    destruct (fix_ranges_imported "chord_harte" (map (relabel CHORDS_DICT) evs))
      as (a & Ha & _ & _ & Hrows).
    rewrite Ha in H. cbn [mbind result_bind Py.bind] in H.
    rewrite (set_duration_last _ (annotations jam) a) in H by reflexivity.
    destruct (last _); [|discriminate]. injection H as <-.
    exists a. split; [reflexivity|]. intros _. rewrite Hrows.
    apply Forall_forall. intros x Hx. by apply list_elem_of_filter in Hx as [? _]. }
  destruct (contains "keylab" lab_file) eqn:Hk.
  { right. rewrite (annotate_key _ _ Hb Hc Hk) in H.
    destruct (read_lab _ _ _) as [evs|]; [|discriminate].
    unfold key_fixups in H. unfold fix_key_labels in H.
    rewrite fix_labels_imported in H.
    destruct (fix_ranges_imported "key_mode" (map (relabel KEYS_DICT) evs))
      as (a & Ha & _ & _ & Hrows).
    rewrite Ha in H. cbn [mbind result_bind Py.bind] in H.
    destruct (fix_silence a) as [a'|] eqn:Hs; [|discriminate].
    cbn [mbind result_bind Py.bind] in H. injection H as <-.
    exists a'. split; [reflexivity|]. intros _.
    apply fix_silence_sublist in Hs as (_ & _ & Hsub).
    apply Forall_forall. intros o Ho.
    apply (elem_of_sublist _ _ _ Ho) in Hsub. rewrite Hrows in Hsub.
    by apply list_elem_of_filter in Hsub as [? _]. }
  destruct (contains "seglab" lab_file) eqn:Hs.
  { right. rewrite (annotate_segment _ _ Hb Hc Hk Hs) in H.
    destruct (read_lab _ _ _) as [evs|]; [|discriminate].
    destruct (fix_ranges_imported "segment_isophonics" evs)
      as (a & Ha & _ & _ & Hrows).
    rewrite Ha in H. cbn [mbind result_bind Py.bind] in H.
    rewrite (set_duration_last _ (annotations jam) a) in H by reflexivity.
    destruct (last _); [|discriminate]. injection H as <-.
    exists a. split; [reflexivity|]. intros _. rewrite Hrows.
    apply Forall_forall. intros x Hx. by apply list_elem_of_filter in Hx as [? _]. }
  left. rewrite annotate_none in H by done. by injection H as <-.
Qed.

Lemma settled_with_metadata a : settled a → settled (with_metadata ann_meta a).
Proof. intros [_ H]. split; [reflexivity|exact H]. Qed.

(** The first-encounter block either finds the track or creates a record
    without annotations. *)
Lemma register_cases in_dir out_dir st lab_file st1 lg :
  register filebase in_dir out_dir st lab_file = Ok (st1, lg) →
  (is_Some (all_jams st !! filebase lab_file) ∧ st1 = st ∧ lg = [])
  ∨ (all_jams st !! filebase lab_file = None
     ∧ ∃ jam, annotations jam = []
              ∧ all_jams st1 = <[filebase lab_file := jam]> (all_jams st)).
Proof.
  unfold register.
  destruct (all_jams st !! filebase lab_file) as [jam|] eqn:E.
  - intros [= <- <-]. left. eauto.
  - destruct (_ !! 1%nat) as [artist|]; [|discriminate].
    cbn [mbind result_bind Py.bind]. intros [= <- <-]. right.
    split; [done|]. eexists. split; [|reflexivity]. reflexivity.
Qed.

Lemma process_file_settled in_dir out_dir st lab_file lg st' :
  process_file in_dir out_dir st lab_file = (lg, Ok st') →
  tracks_settled st → tracks_settled st'.
Proof.
  unfold Isophonics.process_file. intros H Hst.
  destruct (register _ _ _ _ _) as [[st1 lg1]|] eqn:Hreg; [|discriminate].
  injection H as <- H.
  destruct (all_jams st1 !! filebase lab_file) as [jam|] eqn:Hjam;
    [|discriminate].
  cbn [mbind result_bind Py.bind] in H.
  destruct (annotate jam lab_file) as [jam1|] eqn:Hann; [|discriminate].
  cbn [mbind result_bind Py.bind] in H.
  destruct (update_last _ jam1) as [jam2|] eqn:Hup; [|discriminate].
  cbn [mbind result_bind Py.bind] in H. injection H as <-.
  (* the record before this file: settled annotations, possibly none *)
  assert (Hold : Forall settled (annotations jam)
                 ∧ ∀ t, t ≠ filebase lab_file →
                        all_jams st1 !! t = all_jams st !! t).
  { apply register_cases in Hreg as [(_ & -> & _)|(_ & jam0 & Hnil & Hst1)].
    - split; [by apply (Hst _ _ Hjam)|done].
    - rewrite Hst1, lookup_insert_eq in Hjam. injection Hjam as <-.
      rewrite Hnil. split; [constructor|].
      intros t Hne. by rewrite Hst1, lookup_insert_ne. }
  destruct Hold as [Hold Hother].
  assert (Hnew : annotations jam2 ≠ [] ∧ Forall settled (annotations jam2)).
  { unfold update_last in Hup.
    destruct (last (annotations jam1)) as [a|] eqn:Hlast; [|discriminate].
    cbn [mbind result_bind Py.bind] in Hup. injection Hup as <-.
    apply last_Some in Hlast as [l Hl]. simpl. rewrite Hl.
    rewrite length_app. simpl.
    replace (length l + 1 - 1)%nat with (length l + 0)%nat by lia.
    rewrite insert_app_r. simpl. split; [by destruct l|].
    apply annotate_shape in Hann as [[_ ->]|(a' & Hshape & Hpos)].
    - rewrite Hl in Hold. apply Forall_app in Hold as [Hl' Ha].
      apply Forall_app. split; [done|].
      apply Forall_singleton. rewrite Forall_singleton in Ha.
      exact (settled_with_metadata _ Ha).
    - rewrite Hl in Hshape. apply app_inj_tail in Hshape as [-> ->].
      apply Forall_app. split; [done|].
      apply Forall_singleton. split; [reflexivity|exact Hpos]. }
  intros t j. simpl. destruct (decide (t = filebase lab_file)) as [->|Hne].
  - rewrite lookup_insert_eq. by intros [= <-].
  - rewrite lookup_insert_ne by done. rewrite Hother by done. apply Hst.
Qed.

Lemma process_files_settled in_dir out_dir all_labs : ∀ st lg st',
  process_files in_dir out_dir st all_labs = (lg, Ok st') →
  tracks_settled st → tracks_settled st'.
Proof.
  induction all_labs as [|f rest IH]; intros st lg st' H Hst.
  - by injection H as <- <-.
  - simpl in H.
    destruct (process_file in_dir out_dir st f) as [lg1 [st1|e]] eqn:E;
      simpl in H; [|discriminate].
    destruct (process_files in_dir out_dir st1 rest) as [lg2 r2] eqn:E2.
    simpl in H. injection H as <- ->.
    eapply IH; [exact E2|]. by eapply process_file_settled.
Qed.

Lemma no_tracks_settled : tracks_settled no_tracks.
Proof. intros t j H. simpl in H. by rewrite lookup_empty in H. Qed.

(** A file the saving loop writes is the record of a track, under the
    output path of the track, and its directory creation and its save
    went through. *)
Lemma save_title_Ok st title w :
  save_title st title = Ok w →
  output_paths st !! title = Some w.1 ∧ all_jams st !! title = Some w.2
  ∧ write smkdirs save w.1 w.2 = Ok ().
Proof.
  unfold Isophonics.save_title, write. intros H.
  destruct (output_paths st !! title) as [o|]; [|discriminate].
  cbn [mbind result_bind Py.bind] in H.
  destruct (smkdirs (path_split o).1) as [[]|] eqn:Hd; [|discriminate].
  cbn [mbind result_bind Py.bind] in H.
  destruct (all_jams st !! title) as [j|]; [|discriminate].
  cbn [mbind result_bind Py.bind] in H.
  destruct (save o j) as [[]|] eqn:Hs; [|discriminate].
  cbn [mbind result_bind Py.bind] in H. injection H as <-.
  cbn [fst snd]. by rewrite Hd.
Qed.

Lemma save_all_saved st titles out jam :
  (out, jam) ∈ (save_all st titles).1 →
  ∃ title, all_jams st !! title = Some jam.
Proof.
  induction titles as [|t titles IH]; simpl; [by intros ?%elem_of_nil|].
  destruct (save_title st t) as [w|e] eqn:E; [|by intros ?%elem_of_nil].
  apply save_title_Ok in E as (_ & Hj & _).
  simpl. intros [Hw|H]%elem_of_cons; [subst w|]; eauto.
Qed.


Lemma process_files_app in_dir out_dir l1 : ∀ st l2,
  process_files in_dir out_dir st (l1 ++ l2) =
  match (process_files in_dir out_dir st l1).2 with
  | Ok st' =>
      ((process_files in_dir out_dir st l1).1
       ++ (process_files in_dir out_dir st' l2).1,
       (process_files in_dir out_dir st' l2).2)
  | Raise e => process_files in_dir out_dir st l1
  end.
Proof.
  induction l1 as [|f l1 IH]; intros st l2.
  - simpl. by destruct (process_files _ _ _ _).
  - simpl. destruct (process_file in_dir out_dir st f) as [lg [st1|e]];
      simpl; [|reflexivity].
    rewrite IH. destruct (process_files in_dir out_dir st1 l1) as [lg1 [st2|e]];
      simpl; [|reflexivity].
    by rewrite app_assoc.
Qed.

(** C5 — in every file a run writes, every event of a chord, key or
    segment annotation set has a duration strictly greater than 0: an
    input event with a non-positive duration is in no output set. *)
Theorem timed_events_span_time (in_dir out_dir : string)
    (lab_files txt_files : list string) (out : string) (jam : JAMS)
    (annot : Annotation) (o : observation) :
  (out, jam) ∈ saved (process in_dir out_dir lab_files txt_files) →
  annot ∈ annotations jam →
  timed annot →
  o ∈ rows (data annot) →
  (0 < duration o)%Z.
Proof.
  unfold Isophonics.process. intros Hsaved Hannot Htimed Ho.
  destruct (process_files in_dir out_dir no_tracks (lab_files ++ txt_files))
    as [lg [st|e]] eqn:E; simpl in Hsaved; [|by apply elem_of_nil in Hsaved].
  apply save_all_saved in Hsaved as [title Hjam].
  pose proof (process_files_settled _ _ _ _ _ _ E no_tracks_settled) as Hst.
  destruct (Hst _ _ Hjam) as [_ Hall].
  rewrite Forall_forall in Hall. destruct (Hall _ Hannot) as [_ Hpos].
  specialize (Hpos Htimed). rewrite Forall_forall in Hpos. by apply Hpos.
Qed.

(** C4 (amended) — the derived duration is the time of the last event of
    the set plus the duration of that event, in seconds, whenever the set
    is not empty (time-ordered or not); on an empty set the derivation
    raises IndexError, which ends the run, instead of leaving the duration
    unset.  In [process] the set is the one left by the fixups. *)
Theorem duration_from_last_event (jam0 : JAMS) (before : list Annotation)
    (annot : Annotation) :
  let jam := with_annotations (before ++ [annot]) jam0 in
  get_duration_from_annot annot =
    match last (rows (data annot)) with
    | Some e => Ok (total_seconds (time e + duration e))
    | None => Raise IndexError
    end
  ∧ set_duration jam =
    match last (rows (data annot)) with
    | Some e => Ok (with_duration (Some (total_seconds (time e + duration e))) jam)
    | None => Raise IndexError
    end
  ∧ (∀ lab_file evs,
      contains "beat" lab_file = false →
      contains "chordlab" lab_file = false →
      contains "keylab" lab_file = false →
      contains "seglab" lab_file = true →
      read_lab "segment_isophonics" lab_file None = Ok evs →
      match last (filter positive evs) with
      | Some e =>
          ∃ jam', annotate jam0 lab_file = Ok jam'
                  ∧ file_duration (file_metadata jam')
                    = Some (total_seconds (time e + duration e))
      | None => annotate jam0 lab_file = Raise IndexError
      end)
  ∧ (∀ lab_file evs,
      contains "beat" lab_file = false →
      contains "chordlab" lab_file = true →
      read_lab "chord_harte" lab_file None = Ok evs →
      match last (filter positive evs) with
      | Some e =>
          ∃ jam', annotate jam0 lab_file = Ok jam'
                  ∧ file_duration (file_metadata jam')
                    = Some (total_seconds (time e + duration e))
      | None => annotate jam0 lab_file = Raise IndexError
      end).
Proof.
  intros jam. split; [apply get_duration_from_annot_last|].
  split; [by apply (set_duration_last jam before annot)|].
  split.
  2:{ intros lab_file evs Hb Hc Hread.
      rewrite (annotate_chord _ _ Hb Hc), Hread.
      destruct (fix_ranges_imported "chord_harte" (map (relabel CHORDS_DICT) evs))
        as (a & Ha & _ & _ & Hrows).
      rewrite Ha. cbn [mbind result_bind Py.bind].
      rewrite (set_duration_last _ (annotations jam0) a) by reflexivity.
      rewrite Hrows, filter_positive_relabel, fmap_last.
      destruct (last (filter positive evs)); [|reflexivity].
      eexists. split; reflexivity. }
  intros lab_file evs Hb Hc Hk Hs Hread.
  rewrite (annotate_segment _ _ Hb Hc Hk Hs), Hread.
  destruct (fix_ranges_imported "segment_isophonics" evs)
    as (a & Ha & _ & _ & Hrows).
  rewrite Ha. cbn [mbind result_bind Py.bind].
  rewrite (set_duration_last _ (annotations jam0) a) by reflexivity.
  rewrite Hrows. destruct (last (filter positive evs)); [|reflexivity].
  eexists. split; reflexivity.
Qed.

(** C8 (amended) — a file whose path has too few segments for the artist,
    met as the first file of its track, is not reported: the extraction
    raises IndexError, nothing is logged for it, and the exception ends
    the run before any file is written.  When the track already has a
    record the path is not examined. *)
Theorem shallow_path_aborts (in_dir out_dir : string) (st : tracks)
    (lab_file : string) (rest : list string) :
  (length (path_parts in_dir lab_file) < 2)%nat →
  (all_jams st !! filebase lab_file = None →
     process_file in_dir out_dir st lab_file = ([], Raise IndexError)
     ∧ process_files in_dir out_dir st (lab_file :: rest) = ([], Raise IndexError)
     ∧ ∀ lab_files txt_files before lg,
         lab_files ++ txt_files = before ++ lab_file :: rest →
         process_files in_dir out_dir no_tracks before = (lg, Ok st) →
         process in_dir out_dir lab_files txt_files
         = {| saved := []; logged := lg; raised := Some IndexError |})
  ∧ (is_Some (all_jams st !! filebase lab_file) →
     register filebase in_dir out_dir st lab_file = Ok (st, [])).
Proof.
  intros Hshallow. split.
  - intros Hnew.
    assert (Hfile : process_file in_dir out_dir st lab_file = ([], Raise IndexError)).
    { unfold Isophonics.process_file, register. rewrite Hnew.
      fold (path_parts in_dir lab_file).
      destruct (path_parts in_dir lab_file !! 1%nat) eqn:E; [|reflexivity].
      apply lookup_lt_Some in E. lia. }
    assert (Hfiles : process_files in_dir out_dir st (lab_file :: rest)
                     = ([], Raise IndexError)).
    { simpl. by rewrite Hfile. }
    repeat split; [exact Hfile|exact Hfiles|].
    intros lab_files txt_files before lg Hall Hbefore.
    unfold Isophonics.process. rewrite Hall, process_files_app, Hbefore.
    cbn [fst snd]. rewrite Hfiles. simpl. by rewrite app_nil_r.
  - intros [jam Hjam]. unfold register. by rewrite Hjam.
Qed.

(** C9 (amended) — a file whose path carries none of the category
    keywords is not reported: no warning is logged.  When its track
    already has a record, the iteration leaves every track as it was and
    the run goes on; when it is the first file of its track, the
    iteration raises IndexError and the run ends. *)
Theorem unmatched_file (in_dir out_dir : string) (st : tracks)
    (lab_file : string) :
  matches_none lab_file →
  (all_jams st !! filebase lab_file = None →
     ∃ lg, process_file in_dir out_dir st lab_file = (lg, Raise IndexError)
           ∧ ∀ msg, Warning msg ∉ lg)
  ∧ (tracks_settled st → is_Some (all_jams st !! filebase lab_file) →
     process_file in_dir out_dir st lab_file = ([], Ok st)).
Proof.
  intros Hnone. split.
  - intros Hnew. unfold Isophonics.process_file, register. rewrite Hnew.
    destruct (_ !! 1%nat) as [artist|]; cbn [mbind result_bind Py.bind].
    + eexists. split.
      * cbn [all_jams]. rewrite lookup_insert_eq.
        cbn [mbind result_bind Py.bind].
        rewrite (annotate_none _ _ Hnone). cbn [mbind result_bind Py.bind].
        rewrite update_last_nil by reflexivity. reflexivity.
      * intros msg Hin. apply list_elem_of_singleton in Hin. discriminate.
    + exists []. split; [reflexivity|]. intros msg Hin. by apply elem_of_nil in Hin.
  - intros Hst [jam Hjam]. unfold Isophonics.process_file, register.
    rewrite Hjam. cbn [mbind result_bind Py.bind]. rewrite Hjam.
    cbn [mbind result_bind Py.bind].
    rewrite (annotate_none _ _ Hnone). cbn [mbind result_bind Py.bind].
    destruct (Hst _ _ Hjam) as [Hne Hall].
    destruct (last (annotations jam)) as [a|] eqn:Hlast.
    2:{ by apply last_None in Hlast. }
    apply last_Some in Hlast as [l Hl].
    rewrite (update_last_snoc _ _ l a Hl). cbn [mbind result_bind Py.bind].
    rewrite Hl in Hall. apply Forall_app in Hall as [_ Ha].
    rewrite Forall_singleton in Ha. destruct Ha as [Hmeta _].
    assert (Ea : with_metadata ann_meta a = a).
    { destruct a. simpl in *. by subst. }
    rewrite Ea, <- Hl.
    assert (Ej : with_annotations (annotations jam) jam = jam) by by destruct jam.
    rewrite Ej, insert_id by done. by destruct st.
Qed.

End Files.


(** ** The properties on the sample dataset *)

Lemma timed_events_span_time_witness :
  ∃ out jam annot,
    (out, jam) ∈ saved (Sample.process Sample.lab_files "iso" "out"
                          [Sample.chord_file] [])
    ∧ annot ∈ annotations jam
    ∧ timed annot
    ∧ length (rows (data annot)) = 2%nat
    ∧ Forall positive (rows (data annot)).
Proof.
  eexists _, _, _.
  split; [vm_compute; apply list_elem_of_here|].
  split; [apply list_elem_of_here|].
  split; [unfold timed; vm_compute; apply list_elem_of_here|].
  split; [reflexivity|].
  apply Forall_forall. intros o Ho.
  eapply (timed_events_span_time Sample.filebase
            (Sample.read_from Sample.lab_files) Sample.no_float Sample.iterkeys
            Sample.smkdirs Sample.save "iso" "out" [Sample.chord_file] []).
  - vm_compute. apply list_elem_of_here.
  - apply list_elem_of_here.
  - unfold timed. vm_compute. apply list_elem_of_here.
  - exact Ho.
Defined.

(** C4, as stated, fails on an empty set: the derivation does not leave
    the duration unset, it raises. *)
Lemma empty_set_duration_raises :
  let annot := new_Annotation "chord_harte" in
  let jam := with_annotations [annot] new_JAMS in
  set_duration jam = Raise IndexError
  ∧ ¬ duration_as_specified jam annot.
Proof.
  split; [reflexivity|].
  unfold duration_as_specified. simpl. intros (jam' & H & _). discriminate.
Qed.

(** In a run, a chord file left without events by the fixups ends it. *)
Example empty_chord_file_aborts :
  Sample.process Sample.lab_files "iso" "out"
    [Sample.chord_file; Sample.empty_chord_file] []
  = {| saved := [];
       logged := [Info "s1 -> out/Art/Alb/s1.jams";
                  Info "s2 -> out/Art/Alb/s2.jams"];
       raised := Some IndexError |}.
Proof. vm_compute. reflexivity. Qed.

Example chord_file_duration :
  ∃ out jam,
    saved (Sample.process Sample.lab_files "iso" "out" [Sample.chord_file] [])
    = [(out, jam)]
    ∧ file_duration (file_metadata jam) = Some (total_seconds 5000000000).
Proof. eexists _, _. split; vm_compute; reflexivity. Qed.

(** C8, as stated, fails: a file directly under the input directory is
    neither reported nor skipped. *)
Lemma shallow_path_not_skipped :
  Sample.process_file ∅ "iso" "out" no_tracks "iso/s2.lab"
  = ([], Raise IndexError)
  ∧ ¬ skipped_with_report no_tracks
        (Sample.process_file ∅ "iso" "out" no_tracks "iso/s2.lab").
Proof.
  split; [vm_compute; reflexivity|].
  intros [H _]. vm_compute in H. discriminate.
Qed.

Lemma shallow_path_aborts_witness :
  (length (path_parts "iso" "iso/s2.lab") < 2)%nat
  ∧ Sample.process Sample.lab_files "iso" "out"
      [Sample.chord_file; "iso/s2.lab"; Sample.key_file] []
    = {| saved := []; logged := [Info "s1 -> out/Art/Alb/s1.jams"];
         raised := Some IndexError |}.
Proof.
  assert (Hshallow : (length (path_parts "iso" "iso/s2.lab") < 2)%nat)
    by (vm_compute; lia).
  split; [exact Hshallow|].
  destruct (Sample.process_files Sample.lab_files "iso" "out" no_tracks
              [Sample.chord_file]) as [lg r] eqn:E.
  destruct r as [st|e]; [|vm_compute in E; discriminate].
  destruct (shallow_path_aborts Sample.filebase
              (Sample.read_from Sample.lab_files) Sample.no_float Sample.iterkeys
              Sample.smkdirs Sample.save "iso" "out" st "iso/s2.lab"
              [Sample.key_file] Hshallow)
    as [H _].
  destruct H as (_ & _ & H).
  - vm_compute in E. injection E as <- <-. vm_compute. reflexivity.
  - unfold Sample.process.
    rewrite (H [Sample.chord_file; "iso/s2.lab"; Sample.key_file] []
               [Sample.chord_file] lg eq_refl E).
    vm_compute in E. by injection E as <- <-.
Defined.

(** C9, as stated, fails: a file without a category keyword, met first
    for its track, is not skipped with a warning: it ends the run. *)
Lemma unmatched_file_not_skipped :
  Sample.process_file ∅ "iso" "out" no_tracks "iso/notes/Art/readme.lab"
  = ([Info "readme -> out/Art/readme.jams"], Raise IndexError)
  ∧ ¬ skipped_with_report no_tracks
        (Sample.process_file ∅ "iso" "out" no_tracks "iso/notes/Art/readme.lab").
Proof.
  split; [vm_compute; reflexivity|].
  intros [H _]. vm_compute in H. discriminate.
Qed.

Lemma unmatched_file_witness :
  matches_none "iso/notes/Art/s1.lab"
  ∧ ∃ lg st,
      Sample.process_files Sample.lab_files "iso" "out" no_tracks
        [Sample.chord_file] = (lg, Ok st)
      ∧ Sample.process_file Sample.lab_files "iso" "out" st "iso/notes/Art/s1.lab"
        = ([], Ok st)
      ∧ ∃ lg', Sample.process_file Sample.lab_files "iso" "out" st
                 "iso/notes/Art/s2.lab" = (lg', Raise IndexError).
Proof.
  assert (Hnone : ∀ t, t = "s1" ∨ t = "s2" →
            matches_none ("iso/notes/Art/" +:+ t +:+ ".lab")).
  { intros t [-> | ->]; repeat split; reflexivity. }
  split; [apply (Hnone "s1"); by left|].
  destruct (Sample.process_files Sample.lab_files "iso" "out" no_tracks
              [Sample.chord_file]) as [lg r] eqn:E.
  destruct r as [st|e]; [|vm_compute in E; discriminate].
  exists lg, st. split; [reflexivity|].
  pose proof (process_files_settled _ _ _ _ _ _ _ _ _ E no_tracks_settled) as Hst.
  split.
  - apply (unmatched_file Sample.filebase (Sample.read_from Sample.lab_files)
             Sample.no_float "iso" "out" st "iso/notes/Art/s1.lab"
             (Hnone "s1" (or_introl eq_refl))); [exact Hst|].
    vm_compute in E. injection E as <- <-. vm_compute. eauto.
  - destruct (unmatched_file Sample.filebase (Sample.read_from Sample.lab_files)
                Sample.no_float "iso" "out" st "iso/notes/Art/s2.lab"
                (Hnone "s2" (or_intror eq_refl))) as [H _].
    destruct H as (lg' & H & _); [|by exists lg'].
    vm_compute in E. injection E as <- <-. vm_compute. reflexivity.
Defined.

(** C6 — the code does not do what the claim says.  After [fix_ranges]
    has dropped a row, the positions [fix_silence] collects are no longer
    the labels [drop] removes: here the silence is kept, the key before
    it is dropped; with one row less, [drop] raises. *)
Theorem silence_survives_empty_range :
  ∃ out,
    key_fixups (imported "key_mode" Sample.key_events) = Ok out
    ∧ rows (data out) = [Sample.ev 1 1 "Silence"]
    ∧ is_silence (Sample.ev 1 1 "Silence")
    ∧ ¬ silence_removed Sample.key_events out
    ∧ (∀ jam, Sample.annotate Sample.lab_files jam Sample.key_file
              = Ok (with_annotations (annotations jam ++ [out]) jam))
    ∧ key_fixups (imported "key_mode" [Sample.ev 0 0 "N"; Sample.ev 0 1 "silence"])
      = Raise (LabelsNotInAxis [0%nat]).
Proof.
  eexists. split; [vm_compute; reflexivity|].
  assert (Hs : is_silence (Sample.ev 1 1 "Silence")) by (by eexists).
  split; [reflexivity|]. split; [exact Hs|].
  split; [|split; [|vm_compute; reflexivity]].
  - intros [H _]. apply (H (Sample.ev 1 1 "Silence")); [|exact Hs].
    apply list_elem_of_here.
  - intros jam. unfold Sample.annotate.
    rewrite (annotate_key (Sample.read_from Sample.lab_files) Sample.no_float
               jam Sample.key_file eq_refl eq_refl eq_refl).
    reflexivity.
Qed.

End IsophonicsProps.

(* ===================================================================== *)
(** * Further properties of the tagtraum parser *)
(* ===================================================================== *)

Module TagtraumMore.

Import Tagtraum.
Import TagtraumProps.
Import Sample(vote_line).

(** ** The identity loader *)

Lemma load_msd_metadata_snoc lines line values :
  load_msd_metadata (lines ++ [line]) values
  = load_msd_line values (load_msd_metadata lines values) line.
Proof. unfold load_msd_metadata. by rewrite foldl_app. Qed.

Lemma load_msd_line_table values st line :
  (load_msd_line values st line).1
  = match identity_record line with
    | Some (t, p) =>
        if bool_decide (is_Some (values !! t)) then <[t := p]> st.1 else st.1
    | None => st.1
    end.
Proof.
  unfold load_msd_line, identity_record.
  destruct (split "<SEP>" (strip line)) as [|? [|? [|? [|? [|? ?]]]]];
    simpl; try reflexivity.
  by destruct (bool_decide _).
Qed.

Lemma load_msd_line_log values st line :
  (load_msd_line values st line).2
  = st.2 ++ match identity_record line with
            | Some _ => []
            | None => [Warning ("Failed to parse unique tracks line: " +:+ line)]
            end.
Proof.
  unfold load_msd_line, identity_record.
  destruct (split "<SEP>" (strip line)) as [|? [|? [|? [|? [|? ?]]]]];
    simpl; try reflexivity.
  destruct (bool_decide _); simpl; by rewrite app_nil_r.
Qed.

(** X1 — the identity table holds an entry only for a track id that has
    votes, and that entry is the artist and title of the last four-field
    line of the track id; the log holds, after its announcement, one
    warning for each line that does not have four fields, in file order. *)
Theorem identity_join (lines : list string)
    (tagtraum_values : gmap string (list string)) :
  (∀ track_id,
     (load_msd_metadata lines tagtraum_values).1 !! track_id
     = if decide (is_Some (tagtraum_values !! track_id))
       then last_identity track_id lines else None)
  ∧ (load_msd_metadata lines tagtraum_values).2
    = Info "Matching with metadata from MSD unique tracks..."
      :: map (fun line => Warning ("Failed to parse unique tracks line: " +:+ line))
             (filter (fun line => identity_record line = None) lines).
Proof.
  induction lines as [|l lines [IHv IHl]] using rev_ind.
  - split; [|reflexivity]. intros t. simpl. rewrite lookup_empty.
    by destruct (decide _).
  - rewrite load_msd_metadata_snoc. split.
    + intros t. rewrite load_msd_line_table. unfold last_identity.
      rewrite omap_app, filter_app. simpl.
      destruct (identity_record l) as [[t0 p]|]; simpl.
      2:{ rewrite filter_nil, app_nil_r. apply IHv. }
      rewrite filter_cons. simpl.
      destruct (decide (t0 = t)) as [->|Hne].
      * rewrite filter_nil, last_snoc. simpl.
        destruct (decide (is_Some (tagtraum_values !! t))) as [Hs|Hn].
        -- rewrite bool_decide_eq_true_2 by done. by rewrite lookup_insert_eq.
        -- rewrite bool_decide_eq_false_2 by done. rewrite IHv.
           by destruct (decide _).
      * rewrite filter_nil, app_nil_r.
        destruct (bool_decide _); [rewrite lookup_insert_ne by done|]; apply IHv.
    + rewrite load_msd_line_log, IHl, filter_app, map_app. simpl.
      rewrite filter_cons, filter_nil.
      destruct (identity_record l); destruct (decide _);
        rewrite ?app_nil_r; done.
Qed.


(** ** The vote loader *)

(** X2 — whatever the file, every vote list the loader stores has one or
    two genres, each of them is in the genre set, and when the
    has-minority-votes flag is unset every stored list has one genre. *)
Theorem loaded_dataset_invariant (lines : list string) :
  let d := (load_tagtraum_dataset lines).1 in
  map_Forall
    (fun (_ : string) v =>
       (length v = 1%nat ∨ length v = 2%nat)
       ∧ (∀ g, g ∈ v → g ∈ genres d)
       ∧ (has_minority_genres d = false → length v = 1%nat))
    (tagtraum_values d).
Proof.
  intros d t v Hv.
  assert (Hrec : ∃ l, l ∈ lines ∧ vote_record l = Some (t, v)).
  { subst d. unfold load_tagtraum_dataset in Hv. cbn [fst] in Hv.
    rewrite loaded_values in Hv. cbn [fst empty_dataset tagtraum_values] in Hv.
    rewrite lookup_empty in Hv. unfold last_record in Hv.
    destruct (last _) as [[t' v']|] eqn:E; [|discriminate]. simpl in Hv.
    injection Hv as ->. apply last_Some_elem_of in E.
    apply list_elem_of_filter in E as [Ht E]. simpl in Ht. subst t'.
    apply list_elem_of_omap in E as (l & Hl & E). eauto. }
  destruct Hrec as (l & Hl & Hrec).
  pose proof (vote_record_length _ _ _ Hrec) as Hlen.
  split; [exact Hlen|]. split.
  - intros g Hg. subst d. unfold load_tagtraum_dataset. cbn [fst].
    apply loaded_genres. right. exists (t, v). split; [|done].
    apply list_elem_of_omap. eauto.
  - intros Hflag. destruct Hlen as [H1|H2]; [exact H1|]. exfalso.
    subst d. unfold load_tagtraum_dataset in Hflag. cbn [fst] in Hflag.
    rewrite loaded_minority in Hflag.
    cbn [fst empty_dataset has_minority_genres orb] in Hflag.
    assert (Ht : existsb three_fields lines = true); [|congruence].
    apply existsb_exists. exists l. split; [by apply list_elem_of_In|].
    apply three_fields_record. eauto.
Qed.

Lemma load_line_log st line :
  (load_line st line).2
  = st.2 ++ (if unparsed line
             then [Warning ("Failed to parse tagtraum dataset line: " +:+ line)]
             else []).
Proof.
  unfold unparsed. case_fields line; rewrite ?app_nil_r; reflexivity.
Qed.

Lemma load_lines_log lines : ∀ st,
  (load_lines st lines).2
  = st.2 ++ map (fun line => Warning ("Failed to parse tagtraum dataset line: "
                                       +:+ line))
                (filter (fun line => unparsed line = true) lines).
Proof.
  induction lines as [|l lines IH] using rev_ind; intros st.
  - simpl. by rewrite app_nil_r.
  - rewrite load_lines_snoc, load_line_log, IH, filter_app, map_app, filter_cons.
    rewrite filter_nil, <- app_assoc.
    destruct (unparsed l); by destruct (decide _).
Qed.

(** X3 — the loader's log is its announcement, then one warning for each
    line that is neither a comment nor a two- or three-field line, in file
    order, then the count of distinct track ids; a comment line, a
    two-field line and a three-field line never add to the log. *)
Theorem loader_log (lines : list string) :
  (load_tagtraum_dataset lines).2
  = Info "Loading tagtraum dataset..."
    :: map (fun line => Warning ("Failed to parse tagtraum dataset line: " +:+ line))
           (filter (fun line => unparsed line = true) lines)
    ++ [Info ("Loaded "
              +:+ pretty (size (dom (tagtraum_values (load_tagtraum_dataset lines).1)))
              +:+ " items.")].
Proof.
  unfold load_tagtraum_dataset. cbn [fst snd].
  rewrite load_lines_log, size_dom. reflexivity.
Qed.

(** ** The merger *)

Lemma convert_track_merged d ids out_dir t identity v :
  ids !! t = Some identity →
  length v = 1%nat ∨ length v = 2%nat →
  convert_track d ids out_dir t v
  = Ok (path_join out_dir [slice 2 3 t; slice 3 4 t; slice 4 5 t; t +:+ ".jams"],
        merged d t identity v).
Proof.
  intros Hid [L|L]; unfold convert_track; rewrite Hid.
  - destruct v as [|g [|]]; try discriminate. reflexivity.
  - destruct v as [|g1 [|g2 [|]]]; try discriminate. reflexivity.
Qed.

(** X4 — for a track with an identity and one or two votes, the file the
    merger writes carries the artist and title of the identity table, a
    duration of 0, the track id as identifier, and a single annotation in
    the namespace of the variant with the variant's metadata, whose events
    are the votes in their order (majority first), each at time 0 with
    duration 0. *)
Theorem merged_track_record (d : dataset) (ids : gmap string (string * string))
    (out_dir track_id : string) (identity : string * string)
    (genres : list string) :
  ids !! track_id = Some identity →
  length genres = 1%nat ∨ length genres = 2%nat →
  ∃ out_file jam,
    convert_track d ids out_dir track_id genres = Ok (out_file, jam)
    ∧ jam = merged d track_id identity genres
    ∧ map (map value) (events jam) = [map VStr genres]
    ∧ Forall (Forall (fun o => time o = 0%Z ∧ duration o = 0%Z)) (events jam).
Proof.
  intros Hid Hlen. eexists _, _.
  split; [by apply convert_track_merged|]. split; [reflexivity|].
  destruct Hlen as [L|L].
  - destruct genres as [|g [|]]; try discriminate. split; [reflexivity|].
    repeat constructor.
  - destruct genres as [|g1 [|g2 [|]]]; try discriminate. split; [reflexivity|].
    repeat constructor.
Qed.

Lemma merged_track_record_witness :
  let ids : gmap string (string * string) := {["TRABC" := ("Artist X", "Song Y")]} in
  ids !! "TRABC" = Some ("Artist X", "Song Y")
  ∧ convert_track empty_dataset ids "out" "TRABC" ["Rock"; "Pop"]
    = Ok ("out/A/B/C/TRABC.jams",
          merged empty_dataset "TRABC" ("Artist X", "Song Y") ["Rock"; "Pop"]).
Proof.
  intros ids. split; [reflexivity|].
  destruct (merged_track_record empty_dataset ids "out" "TRABC"
              ("Artist X", "Song Y") ["Rock"; "Pop"] eq_refl (or_intror eq_refl))
    as (out_file & jam & H & -> & _).
  rewrite H. f_equal. f_equal. vm_compute in H. by injection H as <-.
Defined.

(** ** The output path *)

Lemma append_assoc (s1 s2 s3 : string) : (s1 +:+ s2) +:+ s3 = s1 +:+ s2 +:+ s3.
Proof.
  induction s1 as [|c s1 IH]; [reflexivity|].
  change (String c ((s1 +:+ s2) +:+ s3) = String c (s1 +:+ s2 +:+ s3)).
  by rewrite IH.
Qed.

Lemma endswith_char_append c s a t :
  endswith_char c (s +:+ String a t) = endswith_char c (String a t).
Proof.
  induction s as [|x s IH]; [reflexivity|].
  change (String x s +:+ String a t) with (String x (s +:+ String a t)).
  rewrite <- IH. by destruct s.
Qed.

Lemma append_not_empty s a t : String.eqb (s +:+ String a t) "" = false.
Proof. by destruct s. Qed.

(** Joining a component that does not start with a slash to a path that
    neither is empty nor ends with one. *)
Lemma path_join1_plain path a t :
  path ≠ "" → endswith_char "/" path = false → a ≠ "/"%char →
  path_join1 path (String a t) = path +:+ "/" +:+ String a t.
Proof.
  intros Hne Hend Ha. unfold path_join1.
  change (startswith "/" (String a t))
    with (if Ascii.eqb "/" a then startswith "" t else false).
  destruct (Ascii.eqb_spec "/" a) as [E|_]; [by subst|].
  rewrite Hend. destruct (String.eqb_spec path ""); [done|reflexivity].
Qed.

(** X7 — the file of a track goes under three nested directories named
    by the third, fourth and fifth characters of the track id, inside the
    output folder. *)
Theorem shard_path (d : dataset) (ids : gmap string (string * string))
    (out_dir : string) (identity : string * string) (genres : list string)
    (a b c2 c3 c4 : ascii) (rest : string) :
  let track_id := String a (String b (String c2 (String c3 (String c4 rest)))) in
  ids !! track_id = Some identity →
  length genres = 1%nat ∨ length genres = 2%nat →
  out_dir ≠ "" → endswith_char "/" out_dir = false →
  a ≠ "/"%char → c2 ≠ "/"%char → c3 ≠ "/"%char → c4 ≠ "/"%char →
  ∃ jam,
    convert_track d ids out_dir track_id genres
    = Ok (join "/" [out_dir; String c2 ""; String c3 ""; String c4 "";
                    track_id +:+ ".jams"], jam).
Proof.
  intros t Hid Hlen Hne Hend Ha H2 H3 H4.
  rewrite (convert_track_merged d ids out_dir t identity genres Hid Hlen).
  eexists. do 2 f_equal. subst t. unfold path_join, slice.
  cbn [foldl substring Nat.sub].
  replace (substring 0 0 rest) with "" by (by destruct rest).
  set (tail := String b (String c2 (String c3 (String c4 rest)))).
  change (String a tail +:+ ".jams") with (String a (tail +:+ ".jams")).
  assert (Hstep : ∀ p x, x ≠ "/"%char →
            endswith_char "/" (p +:+ "/" +:+ String x "") = false).
  { intros p x Hx.
    change (p +:+ "/" +:+ String x "") with (p +:+ String "/" (String x "")).
    rewrite endswith_char_append.
    change (endswith_char "/" (String "/" (String x ""))) with (Ascii.eqb x "/").
    by destruct (Ascii.eqb_spec x "/"). }
  assert (Hnz : ∀ p q, p +:+ "/" +:+ q ≠ "").
  { intros p q. by destruct p. }
  rewrite (path_join1_plain out_dir c2 "" Hne Hend H2).
  rewrite (path_join1_plain _ c3 "" (Hnz _ _) (Hstep _ _ H2) H3).
  rewrite (path_join1_plain _ c4 "" (Hnz _ _) (Hstep _ _ H3) H4).
  rewrite (path_join1_plain _ a _ (Hnz _ _) (Hstep _ _ H4) Ha).
  by rewrite !append_assoc.
Qed.

Lemma shard_path_witness :
  let ids : gmap string (string * string) := {["TRABC" := ("Artist X", "Song Y")]} in
  ∃ jam, convert_track empty_dataset ids "out" "TRABC" ["Rock"]
         = Ok ("out/A/B/C/TRABC.jams", jam).
Proof.
  intros ids.
  apply (shard_path empty_dataset ids "out" ("Artist X", "Song Y") ["Rock"]
           "T" "R" "A" "B" "C" "");
    [reflexivity | by left | discriminate | reflexivity
    | discriminate | discriminate | discriminate | discriminate].
Defined.

(** The exception that ends the loop is the one the body raised on a
    track. *)
Lemma convert_tracks_raised smkdirs save d ids out_dir items e :
  (convert_tracks smkdirs save d ids out_dir items).2 = Some e →
  ∃ t g, (t, g) ∈ items ∧ save_track smkdirs save d ids out_dir t g = Raise e.
Proof.
  induction items as [|[t g] items IH]; [discriminate|]. simpl.
  destruct (save_track smkdirs save d ids out_dir t g) as [w|e'] eqn:E; simpl.
  - intros H. destruct (IH H) as (t' & g' & Hin & Hr).
    exists t', g'. split; [by right|done].
  - intros [= <-]. exists t, g. split; [by left|done].
Qed.

(** X5 — an exception that ends the merger loop is either the
    missing-key error of a vote-bearing track that has no identity, or an
    exception of the write (directory creation or validating save) of the
    record merged for a track that has one: the construction of a record
    from a vote list of the loader never fails. *)
Theorem loop_raises_identity_or_write
    (smkdirs : string → result unit) (save : string → JAMS → result unit)
    (iteritems : gmap string (list string) → list (string * list string))
    (votes identities : list string) (out_dir : string) :
  let d := (load_tagtraum_dataset votes).1 in
  let ids := (load_msd_metadata identities (tagtraum_values d)).1 in
  let r := process smkdirs save iteritems votes identities out_dir in
  (∀ m, iteritems m ≡ₚ map_to_list m) →
  raised r = None
  ∨ (∃ track_id, raised r = Some (KeyError track_id)
                 ∧ is_Some (tagtraum_values d !! track_id)
                 ∧ ids !! track_id = None)
  ∨ (∃ track_id genres identity e,
       tagtraum_values d !! track_id = Some genres
       ∧ ids !! track_id = Some identity
       ∧ write smkdirs save
           (path_join out_dir [slice 2 3 track_id; slice 3 4 track_id;
                               slice 4 5 track_id; track_id +:+ ".jams"])
           (merged d track_id identity genres) = Raise e
       ∧ raised r = Some e).
Proof.
  intros d ids r Hperm.
  destruct (raised r) as [e|] eqn:E; [right|by left].
  subst r. unfold process in E. cbn [raised] in E.
  apply convert_tracks_raised in E as (t & g & Hin & Hraise).
  rewrite (Hperm _) in Hin. apply elem_of_map_to_list in Hin.
  change (save_track smkdirs save d ids out_dir t g = Raise e) in Hraise.
  change (tagtraum_values d !! t = Some g) in Hin.
  rewrite save_track_cases in Hraise.
  destruct (ids !! t) as [identity|] eqn:Hid.
  - right. exists t, g, identity, e.
    rewrite (convert_track_merged d ids out_dir t identity g Hid) in Hraise
      by (by apply (loaded_record_length votes t g)).
    cbn [fst snd] in Hraise.
    destruct (write smkdirs save _ _) as [u|e'] eqn:Hw; [discriminate|].
    injection Hraise as ->. auto.
  - left. rewrite (convert_track_missing _ _ _ _ _ Hid) in Hraise.
    injection Hraise as <-. exists t. split; [done|]. split; [|exact Hid].
    by rewrite Hin.
Qed.

Lemma loop_raises_identity_or_write_witness :
  let votes := [vote_line "TRBBB" ["Pop"]; vote_line "TRAAA" ["Rock"]] in
  let identities := ["TRBBB<SEP>SOXYZ<SEP>Artist X<SEP>Song Y" +:+ LF] in
  (∃ track_id,
     raised (process Sample.smkdirs Sample.save map_to_list votes identities "out")
     = Some (KeyError track_id))
  ∧ ∃ track_id,
      raised (process Sample.smkdirs Sample.save_refusing
                (fun m => reverse (map_to_list m)) votes identities "out")
      = Some SchemaError
      ∧ is_Some ((load_msd_metadata identities
                    (tagtraum_values (load_tagtraum_dataset votes).1)).1
                 !! track_id).
Proof.
  intros votes identities. split.
  - destruct (loop_raises_identity_or_write Sample.smkdirs Sample.save map_to_list
                votes identities "out")
      as [H|[(t & H & _)|(t & g & i & e & _ & _ & _ & H)]].
    + reflexivity.
    + vm_compute in H. discriminate.
    + by exists t.
    + vm_compute in H. injection H as <-. by exists "TRAAA".
  - destruct (loop_raises_identity_or_write Sample.smkdirs Sample.save_refusing
                (fun m => reverse (map_to_list m)) votes identities "out")
      as [H|[(t & H & _)|(t & g & i & e & _ & Hid & _ & H)]].
    + intros m. apply reverse_Permutation.
    + vm_compute in H. discriminate.
    + vm_compute in H. discriminate.
    + exists t. split; [|by exists i].
      etransitivity; [exact H|]. vm_compute in H. by injection H as <-.
Defined.

(** The records of tracks that all have an identity are all built. *)
Lemma convert_items_merged d ids out_dir (items : list (string * list string)) :
  (∀ item, item ∈ items →
     is_Some (ids !! item.1) ∧ (length item.2 = 1%nat ∨ length item.2 = 2%nat)) →
  ∃ ws, Forall2 (fun item w =>
                   convert_track d ids out_dir item.1 item.2 = Ok w
                   ∧ ∃ identity, ids !! item.1 = Some identity
                                 ∧ w.2 = merged d item.1 identity item.2)
                items ws.
Proof.
  induction items as [|item items IH]; intros H; [by exists []|].
  destruct IH as [ws Hws]; [intros i Hi; apply H; by right|].
  destruct (H item) as [[identity Hid] Hlen]; [by left|].
  eexists (_ :: ws). constructor; [|exact Hws]. split.
  - by apply (convert_track_merged d ids out_dir item.1 identity item.2).
  - by exists identity.
Qed.

(** The loop over tracks whose records are all built: it writes them in
    order until a write raises. *)
Lemma convert_tracks_built smkdirs save d ids out_dir
    (items : list (string * list string)) ws :
  Forall2 (fun item w => convert_track d ids out_dir item.1 item.2 = Ok w) items ws →
  (Forall (fun w => write smkdirs save w.1 w.2 = Ok ()) ws
   ∧ convert_tracks smkdirs save d ids out_dir items = (ws, None))
  ∨ ∃ pre w post e,
      ws = pre ++ w :: post
      ∧ Forall (fun w => write smkdirs save w.1 w.2 = Ok ()) pre
      ∧ write smkdirs save w.1 w.2 = Raise e
      ∧ convert_tracks smkdirs save d ids out_dir items = (pre, Some e).
Proof.
  induction 1 as [|[t g] w items ws Hc _ IH].
  - left. by split.
  - cbn [convert_tracks]. rewrite save_track_cases. cbn [fst snd] in Hc. rewrite Hc.
    destruct (write smkdirs save w.1 w.2) as [[]|e] eqn:Hw.
    + destruct IH as [[Hall ->]|(pre & w' & post & e & -> & Hpre & Hw' & ->)].
      * left. split; [by constructor|reflexivity].
      * right. exists (w :: pre), w', post, e. repeat split; try done.
        by constructor.
    + right. exists [], w, ws, e. by repeat split.
Qed.

(** X6 — when every vote-bearing track has an identity, a record is built
    for each track, the one merged from its votes and its identity, and
    the run writes these records in the order the tracks are enumerated
    until the directory creation or the save of one of them raises: that
    exception ends the run, and the records before it are the files
    written.  When no write raises, the run ends normally with one file
    for each track. *)
Theorem complete_identities_emit_until_refused
    (smkdirs : string → result unit) (save : string → JAMS → result unit)
    (iteritems : gmap string (list string) → list (string * list string))
    (votes identities : list string) (out_dir : string) :
  let d := (load_tagtraum_dataset votes).1 in
  let ids := (load_msd_metadata identities (tagtraum_values d)).1 in
  let r := process smkdirs save iteritems votes identities out_dir in
  (∀ m, iteritems m ≡ₚ map_to_list m) →
  (∀ t, is_Some (tagtraum_values d !! t) → is_Some (ids !! t)) →
  ∃ ws,
    Forall2 (fun item w =>
               convert_track d ids out_dir item.1 item.2 = Ok w
               ∧ ∃ identity, ids !! item.1 = Some identity
                             ∧ w.2 = merged d item.1 identity item.2)
            (iteritems (tagtraum_values d)) ws
    ∧ length ws = size (tagtraum_values d)
    ∧ ((Forall (fun w => write smkdirs save w.1 w.2 = Ok ()) ws
        ∧ raised r = None ∧ saved r = ws)
       ∨ ∃ pre w post e,
           ws = pre ++ w :: post
           ∧ Forall (fun w => write smkdirs save w.1 w.2 = Ok ()) pre
           ∧ write smkdirs save w.1 w.2 = Raise e
           ∧ raised r = Some e ∧ saved r = pre).
Proof.
  intros d ids r Hperm Hall.
  destruct (convert_items_merged d ids out_dir (iteritems (tagtraum_values d)))
    as [ws Hws].
  { intros [t g] Hin. rewrite (Hperm _) in Hin. apply elem_of_map_to_list in Hin.
    split; [apply Hall; exists g; exact Hin|].
    by apply (loaded_record_length votes t g). }
  exists ws. split; [exact Hws|]. split.
  { apply Forall2_length in Hws. rewrite <- Hws, (Hperm _).
    apply length_map_to_list. }
  assert (Hbuilt : Forall2 (fun item w =>
                      convert_track d ids out_dir item.1 item.2 = Ok w)
                     (iteritems (tagtraum_values d)) ws).
  { eapply Forall2_impl; [exact Hws|]. by intros item w [Hw _]. }
  subst r. unfold process. fold d. fold ids. cbn [saved raised].
  destruct (convert_tracks_built smkdirs save d ids out_dir _ ws Hbuilt)
    as [[Hok ->]|(pre & w & post & e & -> & Hpre & Hw & ->)].
  - left. by repeat split.
  - right. exists pre, w, post, e. by repeat split.
Qed.

Lemma complete_identities_emit_until_refused_witness :
  let votes := [vote_line "TRBBB" ["Pop"]; vote_line "TRAAA" ["Rock"; "Jazz"]] in
  let identities := ["TRBBB<SEP>SOXYZ<SEP>Artist X<SEP>Song Y" +:+ LF;
                     "TRAAA<SEP>SOABC<SEP>Artist Z<SEP>Song W" +:+ LF] in
  let r := process Sample.smkdirs Sample.save map_to_list votes identities "out" in
  let r' := process Sample.smkdirs Sample.save_refusing map_to_list
              votes identities "out" in
  (raised r = None ∧ length (saved r) = 2%nat)
  ∧ (raised r' = Some SchemaError ∧ saved r' = []).
Proof.
  intros votes identities r r'.
  assert (Hids : ∀ t,
            is_Some (tagtraum_values (load_tagtraum_dataset votes).1 !! t) →
            is_Some ((load_msd_metadata identities
                        (tagtraum_values (load_tagtraum_dataset votes).1)).1 !! t)).
  { intros t [v Hv].
    assert (t = "TRAAA" ∨ t = "TRBBB") as [-> | ->]; [|vm_compute; eauto..].
    apply elem_of_map_to_list in Hv. vm_compute in Hv.
    apply elem_of_cons in Hv as [[= -> _]|Hv]; [by left|].
    apply list_elem_of_singleton in Hv as [= -> _]. by right. }
  split.
  - destruct (complete_identities_emit_until_refused Sample.smkdirs Sample.save
                map_to_list votes identities "out")
      as (ws & _ & Hlen & [(_ & Hr & Hs)|(pre & w & post & e & _ & _ & _ & Hr & _)]);
      [reflexivity | exact Hids | |].
    + split; [exact Hr|]. fold r in Hs. rewrite Hs. etransitivity; [exact Hlen|].
      vm_compute. reflexivity.
    + vm_compute in Hr. discriminate.
  - destruct (complete_identities_emit_until_refused Sample.smkdirs
                Sample.save_refusing map_to_list votes identities "out")
      as (ws & _ & _ & [(_ & Hr & _)|(pre & w & post & e & _ & _ & _ & Hr & Hs)]);
      [reflexivity | exact Hids | |].
    + vm_compute in Hr. discriminate.
    + split; [|reflexivity]. etransitivity; [exact Hr|].
      vm_compute in Hr. by injection Hr as <-.
Defined.

(** ** Comment lines and files without data *)

(** X19 — a comment line, wherever it stands, changes neither the
    dataset the loader returns nor its log. *)
Theorem comment_lines_ignored (before after : list string) (comment : string) :
  is_comment comment = true →
  load_tagtraum_dataset (before ++ comment :: after)
  = load_tagtraum_dataset (before ++ after).
Proof.
  intros Hc. unfold load_tagtraum_dataset. rewrite !load_lines_app.
  change (load_lines ?st (comment :: after))
    with (load_lines (load_line st comment) after).
  assert (Hskip : ∀ st, load_line st comment = st).
  { intros st. unfold load_line. unfold is_comment in Hc. by rewrite Hc. }
  by rewrite Hskip.
Qed.

Lemma comment_lines_ignored_witness :
  is_comment "# genre dataset" = true
  ∧ load_tagtraum_dataset [vote_line "TRAAA" ["Rock"]; "# genre dataset";
                           vote_line "TRBBB" ["Pop"]]
    = load_tagtraum_dataset [vote_line "TRAAA" ["Rock"]; vote_line "TRBBB" ["Pop"]].
Proof.
  split; [reflexivity|].
  exact (comment_lines_ignored [vote_line "TRAAA" ["Rock"]]
           [vote_line "TRBBB" ["Pop"]] "# genre dataset" eq_refl).
Defined.

(** X20 — a vote file without any line that carries a vote record (an
    empty file, or comments and malformed lines only) gives an empty
    dataset, classified cd2c, and a run that writes no file and does not
    raise, whatever the identity file holds. *)
Theorem no_vote_record_no_output
    (smkdirs : string → result unit) (save : string → JAMS → result unit)
    (iteritems : gmap string (list string) → list (string * list string))
    (votes identities : list string) (out_dir : string) :
  let d := (load_tagtraum_dataset votes).1 in
  let r := process smkdirs save iteritems votes identities out_dir in
  (∀ m, iteritems m ≡ₚ map_to_list m) →
  vote_records votes = [] →
  tagtraum_values d = ∅ ∧ genres d = ∅
  ∧ corpus d = "msd tagtraum cd2c"
  ∧ saved r = [] ∧ raised r = None.
Proof.
  intros d r Hperm Hnone.
  assert (Hv : tagtraum_values d = ∅).
  { apply map_eq. intros t. subst d. unfold load_tagtraum_dataset. cbn [fst].
    rewrite loaded_values, Hnone. reflexivity. }
  assert (Hg : genres d = ∅).
  { apply set_eq. intros g. subst d. unfold load_tagtraum_dataset. cbn [fst].
    rewrite loaded_genres, Hnone. cbn [fst empty_dataset genres]. split.
    - intros [H|(rc & H & _)]; [done|]. by apply elem_of_nil in H.
    - intros H. by apply not_elem_of_empty in H. }
  assert (Hm : has_minority_genres d = false).
  { subst d. unfold load_tagtraum_dataset. cbn [fst]. rewrite loaded_minority.
    cbn [fst empty_dataset has_minority_genres orb].
    destruct (existsb three_fields votes) eqn:E; [|reflexivity].
    apply existsb_exists in E as (l & Hl & H3).
    apply three_fields_record in H3 as (t & v & Hrec & _).
    assert (Hin : (t, v) ∈ vote_records votes).
    { apply list_elem_of_omap. exists l. split; [by apply list_elem_of_In|done]. }
    rewrite Hnone in Hin. by apply elem_of_nil in Hin. }
  split; [exact Hv|]. split; [exact Hg|]. split.
  { unfold corpus, is_cd2, is_cd1. rewrite Hg, Hm. reflexivity. }
  subst r. unfold process. cbn [saved raised]. fold d. rewrite Hv.
  assert (Hitems : iteritems ∅ = []).
  { apply Permutation_nil_r. rewrite (Hperm _). by rewrite map_to_list_empty. }
  rewrite Hitems. split; reflexivity.
Qed.

Lemma no_vote_record_no_output_witness :
  let votes := ["# genre dataset"; "TRBAD Rock" +:+ LF] in
  let r := process Sample.smkdirs Sample.save map_to_list votes
             ["TRBBB<SEP>SOXYZ<SEP>Artist X<SEP>Song Y" +:+ LF] "out" in
  vote_records votes = [] ∧ saved r = [] ∧ raised r = None.
Proof.
  intros votes r. split; [reflexivity|].
  destruct (no_vote_record_no_output Sample.smkdirs Sample.save map_to_list votes
              ["TRBBB<SEP>SOXYZ<SEP>Artist X<SEP>Song Y" +:+ LF] "out")
    as (_ & _ & _ & Hs & Hr); [reflexivity | reflexivity | by split].
Defined.

End TagtraumMore.

(* ===================================================================== *)
(** * Further properties of the Isophonics parser *)
(* ===================================================================== *)

Module IsophonicsMore.

Import Isophonics.
Import IsophonicsProps.

(** ** The fixups, one by one *)

Lemma chord_corrections_final s s' :
  CHORDS_DICT !! s = Some s' → CHORDS_DICT !! s' = None.
Proof.
  intros H. apply elem_of_list_to_map_2 in H.
  repeat (apply elem_of_cons in H as [[= -> ->]|H]; [vm_compute; reflexivity|]).
  by apply elem_of_nil in H.
Qed.

Lemma key_corrections_final s s' :
  KEYS_DICT !! s = Some s' → KEYS_DICT !! s' = None.
Proof.
  intros H. apply elem_of_list_to_map_2 in H.
  repeat (apply elem_of_cons in H as [[= -> ->]|H]; [vm_compute; reflexivity|]).
  by apply elem_of_nil in H.
Qed.

Lemma relabel_twice table :
  (∀ s s', table !! s = Some s' → table !! s' = None) →
  ∀ o, relabel table (relabel table o) = relabel table o.
Proof.
  intros Hfinal o. unfold relabel, with_value. simpl. f_equal.
  destruct (value o) as [s| |]; simpl; try reflexivity.
  destruct (table !! s) as [s'|] eqn:E; simpl.
  - by rewrite (Hfinal _ _ E).
  - by rewrite E.
Qed.

(** X8 — on a freshly imported annotation the chord and key label passes
    rewrite the value of each event through their table and leave the
    number of events, their order, times, durations and confidences as
    they were; a label absent from the table is kept; a second pass
    changes nothing. *)
Theorem label_fixups (ns : string) (evs : list observation) :
  fix_chord_labels (imported ns evs) = imported ns (map (relabel CHORDS_DICT) evs)
  ∧ fix_key_labels (imported ns evs) = imported ns (map (relabel KEYS_DICT) evs)
  ∧ fix_chord_labels (fix_chord_labels (imported ns evs))
    = fix_chord_labels (imported ns evs)
  ∧ fix_key_labels (fix_key_labels (imported ns evs))
    = fix_key_labels (imported ns evs)
  ∧ (∀ table o,
       (∀ label, value o = VStr label → table !! label = None) →
       relabel table o = o)
  ∧ relabel CHORDS_DICT (Sample.ev 0 1 "E:4") = Sample.ev 0 1 "E:sus4".
Proof.
  unfold fix_chord_labels, fix_key_labels.
  rewrite !fix_labels_imported, <- !list_fmap_compose.
  split; [reflexivity|]. split; [reflexivity|].
  split.
  { f_equal. apply list_fmap_ext. intros _ o _.
    apply (relabel_twice _ chord_corrections_final). }
  split.
  { f_equal. apply list_fmap_ext. intros _ o _.
    apply (relabel_twice _ key_corrections_final). }
  split; [|reflexivity].
  intros table o H. destruct o as [t d v c]. unfold relabel, with_value. simpl.
  f_equal. destruct v as [s| |]; simpl; try reflexivity.
  by rewrite (H s eq_refl).
Qed.

(** X9 — on a freshly imported annotation the beat pass leaves no string
    in the value column: each value is a number or the missing-value
    marker, a number is kept, and the events keep their order, times,
    durations and confidences. *)
Theorem beat_values_numeric (float_of_string : string → option float)
    (ns : string) (evs : list observation) :
  fix_beats_values float_of_string (imported ns evs)
  = imported ns (map (with_value (to_float float_of_string)) evs)
  ∧ Forall (fun o => numeric (value o))
           (rows (data (fix_beats_values float_of_string (imported ns evs))))
  ∧ (∀ x, to_float float_of_string (VNum x) = VNum x).
Proof.
  unfold fix_beats_values. rewrite rewrite_values_imported.
  split; [reflexivity|]. split; [|reflexivity].
  unfold imported. simpl. rewrite frame_of_enumerate, rows_enumerate.
  apply Forall_fmap, Forall_forall. intros o _. unfold numeric. simpl.
  destruct (value o) as [s| |]; simpl; eauto.
  destruct (float_of_string s); eauto.
Qed.

Lemma filter_none {A} (P : A → Prop) `{!∀ x, Decision (P x)} (l : list A) :
  (∀ x, x ∈ l → ¬ P x) → filter P l = [].
Proof.
  induction l as [|x l IH]; intros Hn; [reflexivity|].
  rewrite filter_cons. destruct (decide (P x)) as [Hp|_].
  - exfalso. by apply (Hn x); [left|].
  - apply IH. intros y Hy. apply Hn. by right.
Qed.

Lemma with_data_same (annot : Annotation) : with_data (data annot) annot = annot.
Proof. by destruct annot. Qed.

Lemma drop_nothing (f : frame) : drop [] f = Ok f.
Proof.
  unfold drop. rewrite filter_nil. f_equal. apply filter_all.
  apply Forall_forall. intros r _ H. by apply elem_of_nil in H.
Qed.

(** An annotation without empty range goes through [fix_ranges] as it
    is, whatever its labels. *)
Lemma fix_ranges_all_positive annot :
  Forall positive (rows (data annot)) → fix_ranges annot = Ok annot.
Proof.
  intros Hpos. unfold fix_ranges.
  assert (E : empty_range_idxs (data annot) = []).
  { unfold empty_range_idxs. rewrite filter_none; [reflexivity|].
    intros [i d] Hin Hd. simpl in Hd. apply elem_of_enumerate in Hin.
    rewrite list_lookup_fmap in Hin.
    destruct (rows (data annot) !! i) as [o|] eqn:Ei; [|discriminate].
    injection Hin as <-. apply total_seconds_sign in Hd.
    rewrite Forall_forall in Hpos.
    assert (Ho : positive o) by (apply Hpos; by apply list_elem_of_lookup_2 in Ei).
    unfold positive in Ho. lia. }
  rewrite E, drop_nothing. cbn [mbind result_bind Py.bind].
  by rewrite with_data_same.
Qed.

(** X10 — on a freshly imported annotation [fix_ranges] does not raise:
    it keeps exactly the events of positive duration, in their order,
    each under the label it was imported with; applied again to its own
    result it changes nothing. *)
Theorem fix_ranges_keeps_positive (ns : string) (evs : list observation) :
  ∃ out,
    fix_ranges (imported ns evs) = Ok out
    ∧ data out = filter (fun r : nat * observation => positive r.2) (enumerate evs)
    ∧ rows (data out) = filter positive evs
    ∧ fix_ranges out = Ok out.
Proof.
  eexists. split.
  { apply fix_ranges_fresh. unfold imported. simpl. apply frame_of_enumerate. }
  split; [reflexivity|].
  assert (Hrows : rows (filter (fun r : nat * observation => positive r.2)
                               (enumerate evs)) = filter positive evs).
  { by rewrite (rows_filter positive), rows_enumerate. }
  split; [exact Hrows|].
  apply fix_ranges_all_positive. cbn [data with_data]. rewrite Hrows.
  apply Forall_forall. intros o Ho. by apply list_elem_of_filter in Ho as [? _].
Qed.

(** X11 — when no key event has a non-positive duration and every value
    is a string, the key fixups do not raise and the result holds the
    events with their labels corrected, without those whose value is, up
    to case, the silence marker, and without any other loss. *)
Theorem silence_pass_without_empty_ranges (evs : list observation) :
  Forall positive evs → Forall labelled evs →
  ∃ out,
    key_fixups (imported "key_mode" evs) = Ok out
    ∧ rows (data out)
      = filter (fun o => silent_cell (value o) = false) (map (relabel KEYS_DICT) evs)
    ∧ (∀ o, o ∈ rows (data out) → ¬ is_silence o)
    ∧ (∀ o, o ∈ evs → ¬ is_silence o → relabel KEYS_DICT o ∈ rows (data out)).
Proof.
  intros Hpos Hlab.
  destruct (key_fixups_without_empty_ranges evs Hpos Hlab)
    as (out & Hout & Hrows & Hno & Hkeep).
  exists out. split; [exact Hout|]. split; [exact Hrows|]. split; [exact Hno|].
  intros o Ho Hns. apply Hkeep; [exact Ho| |exact Hns].
  rewrite Forall_forall in Hpos. by apply Hpos.
Qed.

Lemma silence_pass_without_empty_ranges_witness :
  Forall positive clean_key_events ∧ Forall labelled clean_key_events
  ∧ ∃ out, key_fixups (imported "key_mode" clean_key_events) = Ok out
           ∧ rows (data out) = [Sample.ev 0 1 "C#"; Sample.ev 2 1 "A"].
Proof.
  assert (Hpos : Forall positive clean_key_events).
  { repeat constructor. }
  assert (Hlab : Forall labelled clean_key_events).
  { repeat constructor; by eexists. }
  split; [exact Hpos|]. split; [exact Hlab|].
  destruct (silence_pass_without_empty_ranges clean_key_events Hpos Hlab)
    as (out & Hout & Hrows & _).
  exists out. split; [exact Hout|]. rewrite Hrows. vm_compute. reflexivity.
Defined.

Lemma silence_idxs_not_string (vals : list (nat * cell)) :
  Exists (fun iv : nat * cell => ∀ label, iv.2 ≠ VStr label) vals →
  silence_idxs vals = Raise AttributeError.
Proof.
  induction 1 as [[i c] vals Hc|[i c] vals _ IH].
  - simpl in Hc. destruct c as [label| |]; [by destruct (Hc label)|done..].
  - simpl. destruct c as [label| |]; [|done..]. by rewrite IH.
Qed.

(** X12 — when a value of the annotation is not a string, the silence
    pass raises AttributeError (and with it ends the run): nothing is
    dropped. *)
Theorem fix_silence_not_string (annot : Annotation) :
  Exists (fun o => ¬ labelled o) (rows (data annot)) →
  fix_silence annot = Raise AttributeError.
Proof.
  intros Hex. unfold fix_silence. rewrite silence_idxs_not_string; [reflexivity|].
  apply Exists_exists in Hex as (o & Ho & Hn).
  apply list_elem_of_lookup_1 in Ho as [i Hi].
  apply Exists_exists. exists (i, value o). split.
  - apply elem_of_enumerate. by rewrite list_lookup_fmap, Hi.
  - intros label E. apply Hn. by exists label.
Qed.

Lemma fix_silence_not_string_witness :
  let annot := imported "key_mode"
                 [Sample.ev 0 1 "C"; Observation 1 1 (VNum 7%float) 1%float] in
  Exists (fun o => ¬ labelled o) (rows (data annot))
  ∧ key_fixups annot = Raise AttributeError.
Proof.
  intros annot.
  assert (Hex : Exists (fun o => ¬ labelled o) (rows (data annot))).
  { apply Exists_cons_tl, Exists_cons_hd. intros [label H]. discriminate. }
  split; [exact Hex|].
  unfold key_fixups.
  assert (E : fix_ranges (fix_key_labels annot) = Ok annot) by (vm_compute; reflexivity).
  rewrite E. cbn [mbind result_bind Py.bind].
  exact (fix_silence_not_string annot Hex).
Defined.


(** ** One file, and the loop over the files *)

Section Grouping.

Variable filebase : string → string.
Variable read_lab : string → string → option string → result (list observation).
Variable float_of_string : string → option float.
Variable iterkeys : gmap string JAMS → list string.
Variable smkdirs : string → result unit.
Variable save : string → JAMS → result unit.

#[local] Abbreviation annotate := (annotate read_lab float_of_string).
#[local] Abbreviation process_file := (process_file filebase read_lab float_of_string).
#[local] Abbreviation process_files := (process_files filebase read_lab float_of_string).
#[local] Abbreviation save_title := (save_title smkdirs save).
#[local] Abbreviation save_all := (save_all smkdirs save).
#[local] Abbreviation process :=
  (process filebase read_lab float_of_string iterkeys smkdirs save).

(** What the chain does with a file, by the first keyword of its path. *)
Lemma annotate_cases jam lab_file jam' :
  annotate jam lab_file = Ok jam' →
  (contains "beat" lab_file = true
   ∧ ∃ a, namespace a = "beat"
          ∧ jam' = with_annotations (annotations jam ++ [a]) jam)
  ∨ (contains "beat" lab_file = false ∧ contains "chordlab" lab_file = true
     ∧ ∃ a d, namespace a = "chord_harte"
              ∧ jam' = with_duration (Some d)
                         (with_annotations (annotations jam ++ [a]) jam))
  ∨ (contains "beat" lab_file = false ∧ contains "chordlab" lab_file = false
     ∧ contains "keylab" lab_file = true
     ∧ ∃ a, namespace a = "key_mode"
            ∧ jam' = with_annotations (annotations jam ++ [a]) jam)
  ∨ (contains "beat" lab_file = false ∧ contains "chordlab" lab_file = false
     ∧ contains "keylab" lab_file = false ∧ contains "seglab" lab_file = true
     ∧ ∃ a d, namespace a = "segment_isophonics"
              ∧ jam' = with_duration (Some d)
                         (with_annotations (annotations jam ++ [a]) jam))
  ∨ (matches_none lab_file ∧ jam' = jam).
Proof.
  intros H.
  destruct (contains "beat" lab_file) eqn:Hb.
  { left. split; [done|].
    apply (annotate_beat _ _ _ _ _ Hb) in H as [evs ->].
    eexists. split; [|reflexivity]. reflexivity. }
  right. destruct (contains "chordlab" lab_file) eqn:Hc.
  { left. split; [done|]. split; [done|].
    rewrite (annotate_chord _ _ _ _ Hb Hc) in H.
    destruct (read_lab _ _ _) as [evs|]; [|discriminate].
    destruct (fix_ranges_imported "chord_harte" (map (relabel CHORDS_DICT) evs))
      as (a & Ha & Hns & _ & _).
    rewrite Ha in H. cbn [mbind result_bind Py.bind] in H.
    rewrite (set_duration_last _ (annotations jam) a) in H by reflexivity.
    destruct (last _); [|discriminate]. injection H as <-. eauto. }
  right. destruct (contains "keylab" lab_file) eqn:Hk.
  { left. split; [done|]. split; [done|]. split; [done|].
    rewrite (annotate_key _ _ _ _ Hb Hc Hk) in H.
    destruct (read_lab _ _ _) as [evs|]; [|discriminate].
    unfold key_fixups, fix_key_labels in H. rewrite fix_labels_imported in H.
    destruct (fix_ranges_imported "key_mode" (map (relabel KEYS_DICT) evs))
      as (a & Ha & Hns & _ & _).
    rewrite Ha in H. cbn [mbind result_bind Py.bind] in H.
    destruct (fix_silence a) as [a'|] eqn:Hs; [|discriminate].
    cbn [mbind result_bind Py.bind] in H. injection H as <-.
    apply fix_silence_sublist in Hs as (Hns' & _ & _).
    exists a'. split; [congruence|reflexivity]. }
  right. destruct (contains "seglab" lab_file) eqn:Hs.
  { left. repeat (split; [done|]).
    rewrite (annotate_segment _ _ _ _ Hb Hc Hk Hs) in H.
    destruct (read_lab _ _ _) as [evs|]; [|discriminate].
    destruct (fix_ranges_imported "segment_isophonics" evs)
      as (a & Ha & Hns & _ & _).
    rewrite Ha in H. cbn [mbind result_bind Py.bind] in H.
    rewrite (set_duration_last _ (annotations jam) a) in H by reflexivity.
    destruct (last _); [|discriminate]. injection H as <-. eauto. }
  right. split; [done|].
  rewrite annotate_none in H by done. by injection H as <-.
Qed.

(** X13 — the category of a file is that of the first of the keywords
    beat, chordlab, keylab, seglab its path contains, in this order: a
    path that contains the beat keyword is imported as a beat annotation
    even when it lies under a chord, key or segment directory, and then
    leaves the file metadata, duration included, as it was. *)
Theorem beat_keyword_first (jam : JAMS) (lab_file : string) (jam' : JAMS) :
  contains "beat" lab_file = true →
  annotate jam lab_file = Ok jam' →
  ∃ a, annotations jam' = annotations jam ++ [a]
       ∧ namespace a = "beat"
       ∧ file_metadata jam' = file_metadata jam.
Proof.
  intros Hb H. apply annotate_cases in H.
  destruct H as [(_ & a & Hns & ->)|[H|[H|[H|[H _]]]]].
  - by exists a.
  - destruct H as (Hb' & _). congruence.
  - destruct H as (Hb' & _). congruence.
  - destruct H as (Hb' & _). congruence.
  - destruct H as (Hb' & _). congruence.
Qed.

(** X21 — for a beat file, a TypeError of the import with the default
    separator is caught and the import is tried again with tabs as
    separator, whose outcome is then the outcome of the file; any other
    exception of the first import is not caught. *)
Theorem beat_import_retry (jam : JAMS) (lab_file : string) (e : exn) :
  contains "beat" lab_file = true →
  read_lab "beat" lab_file None = Raise e →
  annotate jam lab_file =
  match e with
  | TypeError =>
      match read_lab "beat" lab_file (Some (TAB +:+ "+")) with
      | Ok evs =>
          Ok (with_annotations
                (annotations jam
                 ++ [fix_beats_values float_of_string (imported "beat" evs)]) jam)
      | Raise e' => Raise e'
      end
  | _ => Raise e
  end.
Proof.
  intros Hb Hraise. unfold Isophonics.annotate.
  change (ISO_ATTRS !!! "beat") with "beat".
  change (NS_DICT !!! "beat") with "beat".
  rewrite Hb, (import_lab_Raise _ _ _ _ _ _ Hraise).
  destruct e; try reflexivity.
  destruct (read_lab "beat" lab_file (Some (TAB +:+ "+"))) as [evs|e'] eqn:E2.
  - rewrite (import_lab_Ok _ _ _ _ _ _ E2). cbn [mbind result_bind Py.bind].
    by erewrite update_last_snoc by reflexivity.
  - by rewrite (import_lab_Raise _ _ _ _ _ _ E2).
Qed.

(** X14 — a file never changes the artist, title or identifiers of its
    track; a beat file, a key file and a file without keyword leave the
    duration as it was, and a chord or a segment file that is accepted
    sets it. *)
Theorem duration_set_by_chord_and_segment (jam : JAMS) (lab_file : string)
    (jam' : JAMS) :
  annotate jam lab_file = Ok jam' →
  artist (file_metadata jam') = artist (file_metadata jam)
  ∧ title (file_metadata jam') = title (file_metadata jam)
  ∧ identifiers (file_metadata jam') = identifiers (file_metadata jam)
  ∧ (leaves_duration lab_file →
     file_duration (file_metadata jam') = file_duration (file_metadata jam))
  ∧ (¬ leaves_duration lab_file →
     is_Some (file_duration (file_metadata jam'))).
Proof.
  intros H. apply annotate_cases in H. unfold leaves_duration.
  destruct H as [(Hb & a & _ & ->)|[(Hb & Hc & a & d & _ & ->)
    |[(Hb & Hc & Hk & a & _ & ->)|[(Hb & Hc & Hk & Hs & a & d & _ & ->)
    |[(Hb & Hc & Hk & Hs) ->]]]]]; simpl;
    (split; [reflexivity|]); (split; [reflexivity|]); (split; [reflexivity|]).
  - split; [done|]. intros Hn. exfalso. apply Hn. by left.
  - split; [|by eauto]. intros [?|[? _]]; congruence.
  - split; [done|]. intros Hn. exfalso. apply Hn. right. split; [done|by left].
  - split; [|by eauto]. intros [?|[_ [?|?]]]; congruence.
  - split; [done|]. intros Hn. exfalso. apply Hn. right. split; [done|by right].
Qed.


(** The two outcomes of the first-encounter block. *)
Lemma register_Ok in_dir out_dir st lab_file st1 lg :
  register filebase in_dir out_dir st lab_file = Ok (st1, lg) →
  (is_Some (all_jams st !! filebase lab_file) ∧ st1 = st ∧ lg = [])
  ∨ (all_jams st !! filebase lab_file = None
     ∧ ∃ artist,
         path_parts in_dir lab_file !! 1%nat = Some artist
         ∧ st1 = {| all_jams :=
                      <[filebase lab_file :=
                          fill_file_metadata new_JAMS artist (filebase lab_file)]>
                        (all_jams st);
                    output_paths :=
                      <[filebase lab_file :=
                          replace ".lab" ".jams"
                            (path_join out_dir
                               (List.skipn 1 (path_parts in_dir lab_file)))]>
                        (output_paths st) |}).
Proof.
  unfold register. fold (path_parts in_dir lab_file).
  destruct (all_jams st !! filebase lab_file) as [jam|] eqn:E.
  - intros [= <- <-]. left. eauto.
  - destruct (path_parts in_dir lab_file !! 1%nat) as [artist|]; [|discriminate].
    cbn [mbind result_bind Py.bind]. intros [= <- <-]. right. eauto.
Qed.

(** The steps of an iteration that does not raise. *)
Lemma process_file_Ok in_dir out_dir st lab_file lg st' :
  process_file in_dir out_dir st lab_file = (lg, Ok st') →
  ∃ st1 jam jam1 jam2,
    register filebase in_dir out_dir st lab_file = Ok (st1, lg)
    ∧ all_jams st1 !! filebase lab_file = Some jam
    ∧ annotate jam lab_file = Ok jam1
    ∧ update_last (fun a => Ok (with_metadata ann_meta a)) jam1 = Ok jam2
    ∧ st' = {| all_jams := <[filebase lab_file := jam2]> (all_jams st1);
               output_paths := output_paths st1 |}.
Proof.
  unfold Isophonics.process_file. intros H.
  destruct (register _ _ _ _ _) as [[st1 lg1]|] eqn:Hreg; [|discriminate].
  injection H as <- H.
  destruct (all_jams st1 !! filebase lab_file) as [jam|] eqn:Hjam;
    [|discriminate].
  cbn [mbind result_bind Py.bind] in H.
  destruct (Isophonics.annotate _ _ jam lab_file) as [jam1|] eqn:Hann;
    [|discriminate].
  cbn [mbind result_bind Py.bind] in H.
  destruct (update_last _ jam1) as [jam2|] eqn:Hup; [|discriminate].
  cbn [mbind result_bind Py.bind] in H. injection H as <-.
  exists st1, jam, jam1, jam2. eauto.
Qed.

Lemma update_last_metadata jam1 jam2 :
  update_last (fun a => Ok (with_metadata ann_meta a)) jam1 = Ok jam2 →
  file_metadata jam2 = file_metadata jam1
  ∧ map data (annotations jam2) = map data (annotations jam1)
  ∧ map namespace (annotations jam2) = map namespace (annotations jam1).
Proof.
  unfold update_last.
  destruct (last (annotations jam1)) as [a|] eqn:Hlast; [|discriminate].
  cbn [mbind result_bind Py.bind]. intros [= <-]. simpl.
  apply last_Some in Hlast as [l ->]. rewrite length_app. simpl.
  replace (length l + 1 - 1)%nat with (length l + 0)%nat by lia.
  rewrite insert_app_r. simpl. by rewrite !map_app.
Qed.

Lemma annotate_annotations jam lab_file jam' :
  annotate jam lab_file = Ok jam' →
  artist (file_metadata jam') = artist (file_metadata jam)
  ∧ title (file_metadata jam') = title (file_metadata jam)
  ∧ (annotations jam' = annotations jam
     ∨ ∃ a, annotations jam' = annotations jam ++ [a]).
Proof.
  intros H. apply annotate_cases in H.
  destruct H as [(_ & a & _ & ->)|[(_ & _ & a & d & _ & ->)
    |[(_ & _ & _ & a & _ & ->)|[(_ & _ & _ & _ & a & d & _ & ->)
    |[_ ->]]]]]; simpl; eauto 6.
Qed.

(** X15 — an accepted file touches the record of its own track only, and
    only by appending: the records and output paths of the other tracks
    stay as they are; when the track already has a record, its artist,
    title and output path stay those of its first file, nothing is logged,
    and the event tables it holds are kept in order, followed by at most
    one new table. *)
Theorem file_appends_to_its_track (in_dir out_dir : string) (st : tracks)
    (lab_file : string) (lg : list log_record) (st' : tracks) :
  process_file in_dir out_dir st lab_file = (lg, Ok st') →
  (∀ t, t ≠ filebase lab_file →
     all_jams st' !! t = all_jams st !! t
     ∧ output_paths st' !! t = output_paths st !! t)
  ∧ (∀ jam, all_jams st !! filebase lab_file = Some jam →
       lg = [] ∧ output_paths st' = output_paths st
       ∧ ∃ jam', all_jams st' !! filebase lab_file = Some jam'
                 ∧ artist (file_metadata jam') = artist (file_metadata jam)
                 ∧ title (file_metadata jam') = title (file_metadata jam)
                 ∧ map data (annotations jam) `prefix_of` map data (annotations jam')
                 ∧ (length (annotations jam') ≤ S (length (annotations jam)))%nat).
Proof.
  intros H.
  apply process_file_Ok in H as (st1 & jam & jam1 & jam2 & Hreg & Hjam & Hann & Hup & ->).
  apply register_Ok in Hreg.
  apply update_last_metadata in Hup as (Hfm & Hdata & _).
  apply annotate_annotations in Hann as (Hart & Htit & Hshape).
  split.
  - intros t Hne. cbn [all_jams output_paths]. rewrite lookup_insert_ne by done.
    destruct Hreg as [(_ & -> & _)|(_ & artist & _ & ->)]; [done|].
    cbn [all_jams output_paths]. by rewrite !lookup_insert_ne.
  - intros jam0 Hjam0.
    destruct Hreg as [(_ & -> & ->)|(Hnone & _)]; [|congruence].
    rewrite Hjam0 in Hjam. injection Hjam as <-.
    split; [done|]. split; [done|]. exists jam2.
    cbn [all_jams]. rewrite lookup_insert_eq. split; [done|].
    rewrite Hfm. split; [done|]. split; [done|]. rewrite Hdata.
    assert (Hlen : length (annotations jam2) = length (annotations jam1)).
    { by rewrite <- (length_map data), Hdata, length_map. }
    rewrite Hlen.
    destruct Hshape as [->|[a ->]].
    + split; [done|lia].
    + rewrite map_app, length_app. simpl. split; [by apply prefix_app_r|lia].
Qed.

(** ** The whole run *)

Lemma process_file_paired in_dir out_dir st lab_file lg st' :
  process_file in_dir out_dir st lab_file = (lg, Ok st') →
  paired st → paired st'.
Proof.
  intros H Hst.
  apply process_file_Ok in H as (st1 & jam & jam1 & jam2 & Hreg & Hjam & _ & _ & ->).
  apply register_Ok in Hreg as [(_ & -> & _)|(_ & artist & _ & ->)];
    intros t; cbn [all_jams output_paths].
  - destruct (decide (t = filebase lab_file)) as [->|Hne].
    + intros _. apply Hst. by rewrite Hjam.
    + rewrite lookup_insert_ne by done. apply Hst.
  - destruct (decide (t = filebase lab_file)) as [->|Hne].
    + intros _. rewrite lookup_insert_eq. eauto.
    + rewrite !lookup_insert_ne by done. apply Hst.
Qed.

Lemma process_file_named in_dir out_dir st lab_file lg st' :
  process_file in_dir out_dir st lab_file = (lg, Ok st') →
  named st → named st'.
Proof.
  intros H Hst.
  apply process_file_Ok in H as (st1 & jam & jam1 & jam2 & Hreg & Hjam & Hann & Hup & ->).
  assert (Hst1 : named st1).
  { apply register_Ok in Hreg as [(_ & -> & _)|(_ & artist & _ & ->)]; [done|].
    intros t j. cbn [all_jams].
    destruct (decide (t = filebase lab_file)) as [->|Hne].
    - rewrite lookup_insert_eq. intros [= <-]. split; [reflexivity|constructor].
    - rewrite lookup_insert_ne by done. apply Hst. }
  intros t j. cbn [all_jams].
  destruct (decide (t = filebase lab_file)) as [->|Hne].
  2:{ rewrite lookup_insert_ne by done. apply Hst1. }
  rewrite lookup_insert_eq. intros [= <-].
  destruct (Hst1 _ _ Hjam) as [Htitle Hns].
  apply update_last_metadata in Hup as (Hfm & _ & Hnames).
  assert (H1 : title (file_metadata jam1) = filebase lab_file
               ∧ Forall known_namespace (annotations jam1)).
  { apply annotate_cases in Hann.
    destruct Hann as [(_ & a & Ha & ->)|[(_ & _ & a & d & Ha & ->)
      |[(_ & _ & _ & a & Ha & ->)|[(_ & _ & _ & _ & a & d & Ha & ->)
      |[_ ->]]]]]; simpl; (split; [exact Htitle|]); try exact Hns;
      apply Forall_app; (split; [exact Hns|]); apply Forall_singleton;
      unfold known_namespace; rewrite Ha;
      repeat first [apply list_elem_of_here | apply list_elem_of_further]. }
  destruct H1 as [Ht1 Hn1]. rewrite Hfm. split; [exact Ht1|].
  apply Forall_forall. intros a Ha.
  assert (Hin : namespace a ∈ map namespace (annotations jam2)).
  { apply list_elem_of_fmap. eauto. }
  rewrite Hnames in Hin. apply list_elem_of_fmap in Hin as (a1 & E1 & Ha1).
  rewrite Forall_forall in Hn1. unfold known_namespace. rewrite E1.
  by apply Hn1.
Qed.

Lemma process_files_invariant (I : tracks → Prop) in_dir out_dir :
  (∀ st f lg st', process_file in_dir out_dir st f = (lg, Ok st') → I st → I st') →
  ∀ all_labs st lg st',
    process_files in_dir out_dir st all_labs = (lg, Ok st') → I st → I st'.
Proof.
  intros Hstep. induction all_labs as [|f rest IH]; intros st lg st' H Hst.
  - by injection H as <- <-.
  - simpl in H.
    destruct (process_file in_dir out_dir st f) as [lg1 [st1|e]] eqn:E;
      simpl in H; [|discriminate].
    destruct (process_files in_dir out_dir st1 rest) as [lg2 r2] eqn:E2.
    simpl in H. injection H as <- ->.
    eapply IH; [exact E2|]. by eapply Hstep.
Qed.

(** The body of the saving loop on a track that has a record and an
    output path: the write decides. *)
Lemma save_title_cases st t out jam :
  output_paths st !! t = Some out → all_jams st !! t = Some jam →
  save_title st t
  = match write smkdirs save out jam with
    | Ok _ => Ok (out, jam)
    | Raise e => Raise e
    end.
Proof.
  intros Hout Hjam. unfold Isophonics.save_title, write. rewrite Hout, Hjam.
  cbn [mbind result_bind Py.bind].
  destruct (smkdirs _); [|reflexivity]. cbn [mbind result_bind Py.bind].
  by destruct (save out jam).
Qed.

(** The saving loop over tracks that all have a record and an output
    path: it writes them in order until a write raises. *)
Lemma save_all_paired st titles :
  paired st → (∀ t, t ∈ titles → is_Some (all_jams st !! t)) →
  ∃ files,
    Forall2 (fun t w => output_paths st !! t = Some w.1 ∧ all_jams st !! t = Some w.2)
            titles files
    ∧ ((Forall (fun w => write smkdirs save w.1 w.2 = Ok ()) files
        ∧ save_all st titles = (files, None))
       ∨ ∃ pre w post e,
           files = pre ++ w :: post
           ∧ Forall (fun w => write smkdirs save w.1 w.2 = Ok ()) pre
           ∧ write smkdirs save w.1 w.2 = Raise e
           ∧ save_all st titles = (pre, Some e)).
Proof.
  intros Hp. induction titles as [|t titles IH]; intros Hall.
  - exists []. split; [constructor|]. left. by split.
  - destruct (Hall t) as [jam Hjam]; [by left|].
    destruct (Hp t) as [out Hout]; [by rewrite Hjam|].
    destruct IH as (files & Hfiles & IH); [intros u Hu; apply Hall; by right|].
    exists ((out, jam) :: files). split; [by constructor|].
    cbn [Isophonics.save_all]. rewrite (save_title_cases st t out jam Hout Hjam).
    destruct (write smkdirs save out jam) as [[]|e] eqn:Hw.
    + destruct IH as [[Hok ->]|(pre & w & post & e & -> & Hpre & Hw' & ->)].
      * left. split; [by constructor|reflexivity].
      * right. exists ((out, jam) :: pre), w, post, e. repeat split; try done.
        by constructor.
    + right. exists [], (out, jam), files, e. by repeat split.
Qed.

(** X16 — a run that raises while it walks the files writes no file at
    all.  Otherwise the saving loop takes the tracks in the order they
    are enumerated, each with its record and its output path (these
    lookups never fail), and writes them until the directory creation or
    the save of one of them raises: that exception ends the run, and the
    tracks before it are the files written.  When no write raises, the
    run ends normally with one file for each track. *)
Theorem run_stops_at_first_failure (in_dir out_dir : string)
    (lab_files txt_files : list string) :
  let r := process in_dir out_dir lab_files txt_files in
  let walk := process_files in_dir out_dir no_tracks (lab_files ++ txt_files) in
  (∀ m, iterkeys m ≡ₚ (map_to_list m).*1) →
  (∃ e, walk.2 = Raise e ∧ raised r = Some e ∧ saved r = [])
  ∨ (∃ st files,
       walk.2 = Ok st
       ∧ Forall2 (fun t w => output_paths st !! t = Some w.1
                             ∧ all_jams st !! t = Some w.2)
                 (iterkeys (all_jams st)) files
       ∧ length files = size (all_jams st)
       ∧ ((Forall (fun w => write smkdirs save w.1 w.2 = Ok ()) files
           ∧ raised r = None ∧ saved r = files)
          ∨ ∃ pre w post e,
              files = pre ++ w :: post
              ∧ Forall (fun w => write smkdirs save w.1 w.2 = Ok ()) pre
              ∧ write smkdirs save w.1 w.2 = Raise e
              ∧ raised r = Some e ∧ saved r = pre)).
Proof.
  intros r walk Hperm. subst r. unfold Isophonics.process. fold walk.
  destruct walk as [lg [st|e]] eqn:E; cbn [fst snd].
  2:{ left. exists e. by repeat split. }
  right.
  assert (Hp : paired st).
  { eapply (process_files_invariant paired); [apply process_file_paired|exact E|].
    intros t [j Hj]. simpl in Hj. by rewrite lookup_empty in Hj. }
  assert (Hkeys : ∀ t, t ∈ iterkeys (all_jams st) → is_Some (all_jams st !! t)).
  { intros t. rewrite (Hperm _), list_elem_of_fmap.
    intros ([t' j] & -> & Hin). apply elem_of_map_to_list in Hin. eauto. }
  destruct (save_all_paired st (iterkeys (all_jams st)) Hp Hkeys)
    as (files & Hfiles & Hrun).
  exists st, files. split; [reflexivity|]. split; [exact Hfiles|]. split.
  { apply Forall2_length in Hfiles. rewrite <- Hfiles, (Hperm _), length_fmap.
    apply length_map_to_list. }
  cbn [saved raised].
  destruct Hrun as [[Hok ->]|(pre & w & post & e & -> & Hpre & Hw & ->)].
  - left. by repeat split.
  - right. exists pre, w, post, e. by repeat split.
Qed.

(** X17 — every file a run writes holds at least one annotation, is
    filed under its own title, and each of its annotations is in one of
    the four namespaces and carries the fixed Isophonics metadata. *)
Theorem saved_records_annotated (in_dir out_dir : string)
    (lab_files txt_files : list string) (out : string) (jam : JAMS) :
  (out, jam) ∈ saved (process in_dir out_dir lab_files txt_files) →
  annotations jam ≠ []
  ∧ Forall (fun a => known_namespace a ∧ annotation_metadata a = Some ann_meta)
           (annotations jam)
  ∧ ∃ st, (process_files in_dir out_dir no_tracks (lab_files ++ txt_files)).2 = Ok st
          ∧ all_jams st !! title (file_metadata jam) = Some jam.
Proof.
  unfold Isophonics.process. intros Hsaved.
  destruct (process_files in_dir out_dir no_tracks (lab_files ++ txt_files))
    as [lg [st|e]] eqn:E; simpl in Hsaved; [|by apply elem_of_nil in Hsaved].
  apply save_all_saved in Hsaved as [t Hjam].
  pose proof (process_files_settled _ _ _ _ _ _ _ _ _ E no_tracks_settled) as Hset.
  assert (Hnamed : named st).
  { eapply (process_files_invariant named); [apply process_file_named|exact E|].
    intros u j Hj. simpl in Hj. by rewrite lookup_empty in Hj. }
  destruct (Hset _ _ Hjam) as [Hne Hall]. destruct (Hnamed _ _ Hjam) as [Ht Hns].
  split; [exact Hne|]. split.
  - rewrite Forall_forall in Hall, Hns. apply Forall_forall. intros a Ha.
    split; [by apply Hns|]. by apply (Hall a Ha).
  - exists st. split; [reflexivity|]. by rewrite Ht.
Qed.


(** [str.replace] changes nothing in a string that does not contain the
    old substring. *)
Lemma split_absent sep s :
  contains sep s = false → split sep s = [s].
Proof.
  unfold split. induction s as [|c s IH]; [reflexivity|].
  intros H. change (contains sep (String c s))
    with (startswith sep (String c s) || contains sep s) in H.
  apply orb_false_iff in H as [Hstart Hrest].
  change (split_from sep 0 (String c s))
    with (if startswith sep (String c s)
          then EmptyString :: split_from sep (String.length sep - 1) s
          else match split_from sep 0 s with
               | h :: t => String c h :: t
               | [] => [String c EmptyString]
               end).
  by rewrite Hstart, (IH Hrest).
Qed.

Lemma replace_absent old new s :
  old ≠ "" → contains old s = false → replace old new s = s.
Proof.
  intros Hne H. unfold replace. destruct old; [done|].
  by rewrite (split_absent _ _ H).
Qed.

(** X18 — the first file of a track fixes its artist and output path:
    the artist is the second segment of the path below the input folder,
    and when the path holds no [.lab] (a text file) the output path is
    the output folder joined with the segments from the artist on, file
    name and extension unchanged. *)
Theorem first_file_output_path (in_dir out_dir : string) (st : tracks)
    (lab_file root artist : string) (more : list string) :
  all_jams st !! filebase lab_file = None →
  path_parts in_dir lab_file = root :: artist :: more →
  contains ".lab" (path_join out_dir (artist :: more)) = false →
  ∃ st1,
    register filebase in_dir out_dir st lab_file
    = Ok (st1, [Info (filebase lab_file +:+ " -> "
                      +:+ path_join out_dir (artist :: more))])
    ∧ output_paths st1 !! filebase lab_file
      = Some (path_join out_dir (artist :: more))
    ∧ all_jams st1 !! filebase lab_file
      = Some (fill_file_metadata new_JAMS artist (filebase lab_file)).
Proof.
  intros Hnew Hparts Habsent. unfold register. rewrite Hnew.
  fold (path_parts in_dir lab_file). rewrite Hparts.
  cbn [lookup list_lookup mbind result_bind Py.bind List.skipn].
  rewrite (replace_absent ".lab" ".jams" _ ltac:(discriminate) Habsent).
  eexists. split; [reflexivity|].
  cbn [all_jams output_paths]. by rewrite !lookup_insert_eq.
Qed.

End Grouping.

(** ** The properties on the sample dataset *)

Lemma beat_keyword_first_witness :
  contains "beat" heartbeat_file = true
  ∧ contains "chordlab" heartbeat_file = true
  ∧ ∃ jam' a, Sample.annotate more_lab_files new_JAMS heartbeat_file = Ok jam'
              ∧ annotations jam' = [a] ∧ namespace a = "beat".
Proof.
  split; [reflexivity|]. split; [reflexivity|].
  destruct (Sample.annotate more_lab_files new_JAMS heartbeat_file)
    as [jam'|e] eqn:E; [|vm_compute in E; discriminate].
  destruct (beat_keyword_first (Sample.read_from more_lab_files) Sample.no_float
              new_JAMS heartbeat_file jam' eq_refl E) as (a & Ha & Hns & _).
  exists jam', a. auto.
Defined.

Lemma beat_import_retry_witness :
  contains "beat" beat_txt_file = true
  ∧ ∃ jam' a,
      Isophonics.annotate (read_tabbed more_lab_files) Sample.no_float
        new_JAMS beat_txt_file = Ok jam'
      ∧ annotations jam' = [a] ∧ length (data a) = 2%nat.
Proof.
  split; [reflexivity|].
  eexists _, _. split.
  - exact (beat_import_retry (read_tabbed more_lab_files) Sample.no_float
             new_JAMS beat_txt_file TypeError eq_refl eq_refl).
  - split; reflexivity.
Defined.

Lemma duration_set_by_chord_and_segment_witness :
  ∃ jam', Sample.annotate Sample.lab_files new_JAMS Sample.chord_file = Ok jam'
          ∧ ¬ leaves_duration Sample.chord_file
          ∧ is_Some (file_duration (file_metadata jam')).
Proof.
  destruct (Sample.annotate Sample.lab_files new_JAMS Sample.chord_file)
    as [jam'|e] eqn:E; [|vm_compute in E; discriminate].
  assert (Hn : ¬ leaves_duration Sample.chord_file).
  { intros [H|[H _]]; vm_compute in H; discriminate. }
  exists jam'. split; [reflexivity|]. split; [exact Hn|].
  by apply (duration_set_by_chord_and_segment (Sample.read_from Sample.lab_files)
              Sample.no_float new_JAMS Sample.chord_file jam' E).
Defined.

Lemma file_appends_to_its_track_witness :
  ∃ lg st lg' st' jam jam',
    Sample.process_files Sample.lab_files "iso" "out" no_tracks [Sample.chord_file]
    = (lg, Ok st)
    ∧ Sample.process_file Sample.lab_files "iso" "out" st Sample.key_file
      = (lg', Ok st')
    ∧ all_jams st !! "s1" = Some jam ∧ all_jams st' !! "s1" = Some jam'
    ∧ lg' = [] ∧ output_paths st' = output_paths st
    ∧ map data (annotations jam) `prefix_of` map data (annotations jam').
Proof.
  destruct (Sample.process_files Sample.lab_files "iso" "out" no_tracks
              [Sample.chord_file]) as [lg [st|e]] eqn:E;
    [|vm_compute in E; discriminate].
  destruct (Sample.process_file Sample.lab_files "iso" "out" st Sample.key_file)
    as [lg' [st'|e]] eqn:E'.
  2:{ vm_compute in E. injection E as <- <-. vm_compute in E'. discriminate. }
  destruct (all_jams st !! "s1") as [jam|] eqn:Hjam.
  2:{ vm_compute in E. injection E as <- <-. vm_compute in Hjam. discriminate. }
  destruct (file_appends_to_its_track Sample.filebase
              (Sample.read_from Sample.lab_files) Sample.no_float
              "iso" "out" st Sample.key_file lg' st' E') as [_ H].
  destruct (H jam Hjam) as (Hlg & Hpaths & jam' & Hjam' & _ & _ & Hpre & _).
  exists lg, st, lg', st', jam, jam'. auto 10.
Defined.

Lemma run_stops_at_first_failure_witness :
  let r := Sample.process Sample.lab_files "iso" "out" [Sample.chord_file] [] in
  let r' := Sample.process Sample.lab_files "iso" "out" [Sample.key_file] [] in
  (raised r = None ∧ length (saved r) = 1%nat)
  ∧ (raised r' = Some SchemaError ∧ saved r' = []).
Proof.
  intros r r'. split.
  - destruct (run_stops_at_first_failure Sample.filebase
                (Sample.read_from Sample.lab_files) Sample.no_float Sample.iterkeys
                Sample.smkdirs Sample.save "iso" "out" [Sample.chord_file] [])
      as [(e & H & _)|(st & files & Hst & _ & Hlen
                       & [(_ & Hr & Hs)|(pre & w & post & e & _ & _ & _ & Hr & _)])].
    + reflexivity.
    + vm_compute in H. discriminate.
    + split; [exact Hr|]. unfold r, Sample.process. rewrite Hs.
      etransitivity; [exact Hlen|].
      vm_compute in Hst. injection Hst as <-. vm_compute. reflexivity.
    + vm_compute in Hr. discriminate.
  - destruct (run_stops_at_first_failure Sample.filebase
                (Sample.read_from Sample.lab_files) Sample.no_float Sample.iterkeys
                Sample.smkdirs Sample.save "iso" "out" [Sample.key_file] [])
      as [(e & H & _)|(st & files & _ & _ & _
                       & [(_ & Hr & _)|(pre & w & post & e & _ & _ & _ & Hr & Hs)])].
    + reflexivity.
    + vm_compute in H. discriminate.
    + vm_compute in Hr. discriminate.
    + split; [|reflexivity]. etransitivity; [exact Hr|].
      vm_compute in Hr. by injection Hr as <-.
Defined.

Lemma saved_records_annotated_witness :
  ∃ out jam,
    (out, jam) ∈ saved (Sample.process Sample.lab_files "iso" "out"
                          [Sample.chord_file] [])
    ∧ length (annotations jam) = 1%nat
    ∧ Forall (fun a => known_namespace a ∧ annotation_metadata a = Some ann_meta)
             (annotations jam).
Proof.
  eexists _, _. split; [vm_compute; apply list_elem_of_here|].
  split; [reflexivity|].
  eapply (saved_records_annotated Sample.filebase
            (Sample.read_from Sample.lab_files) Sample.no_float Sample.iterkeys
            Sample.smkdirs Sample.save "iso" "out" [Sample.chord_file] []).
  vm_compute. apply list_elem_of_here.
Defined.

Lemma first_file_output_path_witness :
  ∃ st1 lg,
    register Sample.filebase "iso" "out" no_tracks beat_txt_file = Ok (st1, lg)
    ∧ output_paths st1 !! "s3" = Some "out/Art/Alb/s3.txt".
Proof.
  destruct (first_file_output_path Sample.filebase "iso" "out" no_tracks
              beat_txt_file "beat" "Art" ["Alb"; "s3.txt"])
    as (st1 & Hreg & Hout & _); [reflexivity..|].
  eexists st1, _. split; [exact Hreg|]. exact Hout.
Defined.


End IsophonicsMore.
